(** * CSUN campus map quiz: round state machine, timer and leaderboard

    A shallow embedding of [script.js].  The file holds two variants of the
    game: the first keeps its high scores in a global array (top 5), the
    second keeps them in [localStorage] (top 10).  Both are embedded, each in
    a module of its own, over a common model of the JavaScript values they
    manipulate.

    Numbers.  [currentIndex], [correctCount], [correct] and [total] are
    integers ([Z]).  Clock readings, elapsed seconds and distances are
    finite IEEE doubles; a double is embedded as the rational ([Q]) it
    denotes.  Where the program computes a double from doubles and keeps
    it (the elapsed time, lines 346-348), the result is rounded as binary64
    arithmetic rounds it, by [toDouble].  Where it only looks at the sign
    of a difference (the comparator) or compares with a constant (the
    threshold), the exact rational decides as the rounded double does. *)

From Stdlib Require Import ZArith QArith Lqa Lia List String Bool.
From Stdlib Require Import Sorted Permutation.
Import ListNotations.

Local Open Scope Q_scope.

(** ** Score entries *)

(** The object literal pushed by [saveScore]; [timeSeconds] is a number or
    [null]. *)
Record ScoreEntry : Type := mkScore {
  correct : Z;
  total : Z;
  timeSeconds : option Q;
  timestamp : Z
}.

(** ** [Array.prototype.sort] with a comparator *)

Section ArraySort.

Context {A : Type}.
Variable comparefn : A -> A -> Q.

(** [SortCompare(x, y) > 0]: [x] has to come after [y]. *)
Definition comesAfter (x y : A) : bool := negb (Qle_bool (comparefn x y) 0).

(** One step of insertion from the left: [x], the next element of the
    array, moves in front of the first element that has to come after it,
    so it stays behind every element it ties with. *)
Fixpoint place (x : A) (l : list A) : list A :=
  match l with
  | [] => [x]
  | y :: t => if comesAfter y x then x :: y :: t else y :: place x t
  end.

(** ECMAScript requires [sort] to be stable and, for a consistent
    comparator, to return a sorted permutation; that result is unique
    (see [stable_sort_unique] below), so any stable algorithm models it.
    This one takes the elements in array order. *)
Definition sort (l : list A) : list A :=
  fold_left (fun acc x => place x acc) l [].

(** [a] is not ranked after [b]. *)
Definition notAfter (a b : A) : Prop := comparefn a b <= 0.

(** [a] and [b] rank equal. *)
Definition tiesWith (a b : A) : bool := Qeq_bool (comparefn a b) 0.

End ArraySort.

(** [Array.prototype.slice(0, n)]. *)
Definition slice0 {A : Type} (n : nat) (l : list A) : list A := firstn n l.

(** ** The comparator of both [saveScore]s *)

(** [x == null] on a number-or-null value. *)
Definition isNull {T : Type} (x : option T) : bool :=
  match x with None => true | Some _ => false end.

(** The value of a number-or-null field once it is known to be a number. *)
Definition numberOf (x : option Q) : Q :=
  match x with Some q => q | None => 0 end.

(** [typeof x === "number" ? x : null] on a number-or-null value. *)
Definition numberOrNull (x : option Q) : option Q :=
  match x with Some q => Some q | None => None end.

(** What [highScoreEl] shows: a fixed text, or the heading "High Scores:"
    followed by one row per entry ([place. correct/total - time s]); the row
    format is a function of the entries and is kept symbolic. *)
Inductive Board : Type :=
| BoardText (s : string)
| BoardRows (scores : list ScoreEntry).

(** ** Game configuration (identical in both variants) *)

Record LatLng : Type := mkLatLng { lat : Q; lng : Q }.

Record Location : Type := mkLocation {
  name : string;
  code : string;
  grid : string;
  position : LatLng
}.

Definition LOCATIONS : list Location :=
  [ mkLocation "Sustainability Center" "SB" "F4" (mkLatLng 34.2408534 (-118.5266263));
    mkLocation "Jacaranda Hall" "JD" "E5" (mkLatLng 34.2411177 (-118.5289256));
    mkLocation "Live Oak Hall" "LO" "G4" (mkLatLng 34.238307 (-118.5281976));
    mkLocation "Redwood Hall" "RE" "F5" (mkLatLng 34.2419438 (-118.5262211));
    mkLocation "Sequoia Hall" "SQ" "E4" (mkLatLng 34.2405526 (-118.5282433)) ].

(** How close (in meters) a guess must be to count as correct. *)
Definition CORRECT_DISTANCE_METERS : Q := 50.

(** [arr[i]] for an integer [i]: [undefined] ([None]) out of range. *)
Definition lookup {A : Type} (arr : list A) (i : Z) : option A :=
  if (i <? 0)%Z then None else nth_error arr (Z.to_nat i).

(** [arr.length]. *)
Definition len {A : Type} (arr : list A) : Z := Z.of_nat (List.length arr).

(** [!x] on a number-or-null value: [null] and [0] are falsy. *)
Definition falsyNum (x : option Q) : bool :=
  match x with
  | None => true
  | Some q => Qeq_bool q 0
  end.

(** ** Double arithmetic *)

(** [2 ^ k], and 1 for a negative [k]. *)
Definition pow2 (k : Z) : Z := (2 ^ Z.max 0 k)%Z.

(** The integer nearest to [n / d] for positive [n] and [d], ties to the
    even one. *)
Definition roundHalfEven (n d : Z) : Z :=
  let q := (n / d)%Z in
  let r := (n mod d)%Z in
  match (2 * r ?= d)%Z with
  | Lt => q
  | Gt => (q + 1)%Z
  | Eq => if Z.even q then q else (q + 1)%Z
  end.

(** [floor (log2 (n / d))] for positive [n] and [d]. *)
Definition floorLog2 (n d : Z) : Z :=
  let l := (Z.log2 n - Z.log2 d)%Z in
  if (n * pow2 (- l) <? d * pow2 l)%Z then (l - 1)%Z else l.

(** The binary64 value nearest to [q], ties to even: 53 significant bits,
    spacing no finer than [2 ^ -1074] (subnormals, and 0 below them).  The
    result of an arithmetic operation on doubles is the exact result
    rounded this way.  Values past the largest double, which would round to
    infinity, do not occur among clock readings and are not treated. *)
Definition toDouble (q : Q) : Q :=
  let n := Qnum q in
  let d := Z.pos (Qden q) in
  if (n =? 0)%Z then 0
  else
    let a := Z.abs n in
    let e := Z.max (floorLog2 a d - 52) (-1074) in
    let m := roundHalfEven (a * pow2 (- e)) (d * pow2 e) in
    Qred ((Z.sgn n * m * pow2 e) # Z.to_pos (pow2 (- e))).

(** * First variant: high scores in memory, top 5 *)

Module InMemory.

(** Lines 379-387. *)
Definition compareFn (a b : ScoreEntry) : Q :=
  if negb (correct b =? correct a)%Z then
    inject_Z (correct b - correct a)
  else if isNull (timeSeconds a) && isNull (timeSeconds b) then 0
  else if isNull (timeSeconds a) then 1
  else if isNull (timeSeconds b) then -1
  else numberOf (timeSeconds a) - numberOf (timeSeconds b).

(** Functions handed to [setTimeout] by the game logic (the marker bounce
    timeout of [showRoundMarkers] only touches the map and is left out). *)
Inductive Callback : Type := CbStartRound | CbEndGame.

(** Texts assigned to [promptEl]. *)
Inductive Prompt : Type :=
| PromptPage
| PromptStarted
| PromptRound (round : Z) (rounds : Z) (name grid : string)
| PromptGetReady
| PromptGameOver.

(** The global variables, the DOM elements the game writes, the browser's
    timer tables, and two ghost fields: the calls made to the distance
    primitive and the number of exceptions that left an event handler. *)
Record State : Type := mkState {
  currentIndex : Z;
  correctCount : Z;
  guessingEnabled : bool;
  timerInterval : option positive;
  startTime : option Q;
  highScores : list ScoreEntry;
  startBtnDisabled : bool;
  promptEl : Prompt;
  statusEl : string;
  scoreEl : option (Z * Z);
  timerEl : option Q;
  highScoreEl : Board;
  timeouts : list Callback;
  intervals : list positive;
  nextHandle : positive;
  evaluated : list (LatLng * LatLng);
  uncaught : nat
}.

Definition set_currentIndex (v : Z) (s : State) : State :=
  mkState v (correctCount s) (guessingEnabled s) (timerInterval s)
    (startTime s) (highScores s) (startBtnDisabled s) (promptEl s)
    (statusEl s) (scoreEl s) (timerEl s) (highScoreEl s) (timeouts s)
    (intervals s) (nextHandle s) (evaluated s) (uncaught s).

Definition set_correctCount (v : Z) (s : State) : State :=
  mkState (currentIndex s) v (guessingEnabled s) (timerInterval s)
    (startTime s) (highScores s) (startBtnDisabled s) (promptEl s)
    (statusEl s) (scoreEl s) (timerEl s) (highScoreEl s) (timeouts s)
    (intervals s) (nextHandle s) (evaluated s) (uncaught s).

Definition set_guessingEnabled (v : bool) (s : State) : State :=
  mkState (currentIndex s) (correctCount s) v (timerInterval s)
    (startTime s) (highScores s) (startBtnDisabled s) (promptEl s)
    (statusEl s) (scoreEl s) (timerEl s) (highScoreEl s) (timeouts s)
    (intervals s) (nextHandle s) (evaluated s) (uncaught s).

Definition set_timerInterval (v : option positive) (s : State) : State :=
  mkState (currentIndex s) (correctCount s) (guessingEnabled s) v
    (startTime s) (highScores s) (startBtnDisabled s) (promptEl s)
    (statusEl s) (scoreEl s) (timerEl s) (highScoreEl s) (timeouts s)
    (intervals s) (nextHandle s) (evaluated s) (uncaught s).

Definition set_startTime (v : option Q) (s : State) : State :=
  mkState (currentIndex s) (correctCount s) (guessingEnabled s)
    (timerInterval s) v (highScores s) (startBtnDisabled s) (promptEl s)
    (statusEl s) (scoreEl s) (timerEl s) (highScoreEl s) (timeouts s)
    (intervals s) (nextHandle s) (evaluated s) (uncaught s).

Definition set_highScores (v : list ScoreEntry) (s : State) : State :=
  mkState (currentIndex s) (correctCount s) (guessingEnabled s)
    (timerInterval s) (startTime s) v (startBtnDisabled s) (promptEl s)
    (statusEl s) (scoreEl s) (timerEl s) (highScoreEl s) (timeouts s)
    (intervals s) (nextHandle s) (evaluated s) (uncaught s).

Definition set_startBtnDisabled (v : bool) (s : State) : State :=
  mkState (currentIndex s) (correctCount s) (guessingEnabled s)
    (timerInterval s) (startTime s) (highScores s) v (promptEl s)
    (statusEl s) (scoreEl s) (timerEl s) (highScoreEl s) (timeouts s)
    (intervals s) (nextHandle s) (evaluated s) (uncaught s).

Definition set_promptEl (v : Prompt) (s : State) : State :=
  mkState (currentIndex s) (correctCount s) (guessingEnabled s)
    (timerInterval s) (startTime s) (highScores s) (startBtnDisabled s) v
    (statusEl s) (scoreEl s) (timerEl s) (highScoreEl s) (timeouts s)
    (intervals s) (nextHandle s) (evaluated s) (uncaught s).

Definition set_statusEl (v : string) (s : State) : State :=
  mkState (currentIndex s) (correctCount s) (guessingEnabled s)
    (timerInterval s) (startTime s) (highScores s) (startBtnDisabled s)
    (promptEl s) v (scoreEl s) (timerEl s) (highScoreEl s) (timeouts s)
    (intervals s) (nextHandle s) (evaluated s) (uncaught s).

Definition set_scoreEl (v : option (Z * Z)) (s : State) : State :=
  mkState (currentIndex s) (correctCount s) (guessingEnabled s)
    (timerInterval s) (startTime s) (highScores s) (startBtnDisabled s)
    (promptEl s) (statusEl s) v (timerEl s) (highScoreEl s) (timeouts s)
    (intervals s) (nextHandle s) (evaluated s) (uncaught s).

Definition set_timerEl (v : option Q) (s : State) : State :=
  mkState (currentIndex s) (correctCount s) (guessingEnabled s)
    (timerInterval s) (startTime s) (highScores s) (startBtnDisabled s)
    (promptEl s) (statusEl s) (scoreEl s) v (highScoreEl s) (timeouts s)
    (intervals s) (nextHandle s) (evaluated s) (uncaught s).

Definition set_highScoreEl (v : Board) (s : State) : State :=
  mkState (currentIndex s) (correctCount s) (guessingEnabled s)
    (timerInterval s) (startTime s) (highScores s) (startBtnDisabled s)
    (promptEl s) (statusEl s) (scoreEl s) (timerEl s) v (timeouts s)
    (intervals s) (nextHandle s) (evaluated s) (uncaught s).

Definition set_timeouts (v : list Callback) (s : State) : State :=
  mkState (currentIndex s) (correctCount s) (guessingEnabled s)
    (timerInterval s) (startTime s) (highScores s) (startBtnDisabled s)
    (promptEl s) (statusEl s) (scoreEl s) (timerEl s) (highScoreEl s) v
    (intervals s) (nextHandle s) (evaluated s) (uncaught s).

Definition set_intervals (v : list positive) (s : State) : State :=
  mkState (currentIndex s) (correctCount s) (guessingEnabled s)
    (timerInterval s) (startTime s) (highScores s) (startBtnDisabled s)
    (promptEl s) (statusEl s) (scoreEl s) (timerEl s) (highScoreEl s)
    (timeouts s) v (nextHandle s) (evaluated s) (uncaught s).

Definition set_nextHandle (v : positive) (s : State) : State :=
  mkState (currentIndex s) (correctCount s) (guessingEnabled s)
    (timerInterval s) (startTime s) (highScores s) (startBtnDisabled s)
    (promptEl s) (statusEl s) (scoreEl s) (timerEl s) (highScoreEl s)
    (timeouts s) (intervals s) v (evaluated s) (uncaught s).

Definition set_evaluated (v : list (LatLng * LatLng)) (s : State) : State :=
  mkState (currentIndex s) (correctCount s) (guessingEnabled s)
    (timerInterval s) (startTime s) (highScores s) (startBtnDisabled s)
    (promptEl s) (statusEl s) (scoreEl s) (timerEl s) (highScoreEl s)
    (timeouts s) (intervals s) (nextHandle s) v (uncaught s).

(** An exception leaves the running handler: the globals keep what was
    assigned before the throw. *)
Definition threw (s : State) : State :=
  mkState (currentIndex s) (correctCount s) (guessingEnabled s)
    (timerInterval s) (startTime s) (highScores s) (startBtnDisabled s)
    (promptEl s) (statusEl s) (scoreEl s) (timerEl s) (highScoreEl s)
    (timeouts s) (intervals s) (nextHandle s) (evaluated s)
    (S (uncaught s)).

(** [updateScore]: "Score: correctCount / LOCATIONS.length". *)
Definition updateScore (s : State) : State :=
  set_scoreEl (Some (correctCount s, len LOCATIONS)) s.

(** [setTimeout(cb, 1500)]: every delay of the game logic is the same, so
    pending callbacks fire in the order they were scheduled. *)
Definition setTimeout (cb : Callback) (s : State) : State :=
  set_timeouts (timeouts s ++ [cb]) s.

(** [setInterval(updateTimerDisplay, 100)]: a fresh, non-zero handle. *)
Definition setInterval (s : State) : positive * State :=
  let h := nextHandle s in
  (h, set_nextHandle (Pos.succ h) (set_intervals (intervals s ++ [h]) s)).

Definition clearInterval (h : positive) (s : State) : State :=
  set_intervals (filter (fun k => negb (Pos.eqb k h)) (intervals s)) s.

(** *** Timer (lines 332-358) *)

Definition startTimer (now : Q) (s : State) : State :=
  let s1 :=
    match timerInterval s with
    | Some h => clearInterval h s
    | None => s
    end in
  let s2 := set_startTime (Some now) s1 in
  let '(h, s3) := setInterval s2 in
  set_timerInterval (Some h) s3.

(** Returns the elapsed seconds, or [null].  The subtraction and the
    division are operations on doubles. *)
Definition stopTimer (now : Q) (s : State) : option Q * State :=
  if falsyNum (startTime s) then (None, s)
  else
    let s1 :=
      match timerInterval s with
      | Some h => set_timerInterval None (clearInterval h s)
      | None => s
      end in
    let elapsedMs := toDouble (now - numberOf (startTime s1)) in
    let s2 := set_startTime None s1 in
    let seconds := toDouble (elapsedMs / 1000) in
    (Some seconds, set_timerEl (Some seconds) s2).

Definition updateTimerDisplay (now : Q) (s : State) : State :=
  if falsyNum (startTime s) then s
  else
    let elapsedMs := toDouble (now - numberOf (startTime s)) in
    let seconds := toDouble (elapsedMs / 1000) in
    set_timerEl (Some seconds) s.

(** *** High scores (lines 362-415) *)

Definition renderScoreBoard (scores : list ScoreEntry) (s : State) : State :=
  match scores with
  | [] => set_highScoreEl (BoardText "High Scores: none yet") s
  | _ :: _ => set_highScoreEl (BoardRows scores) s
  end.

Definition loadScoresFromStorage (s : State) : State :=
  renderScoreBoard (highScores s) s.

(** [saveScore] with the literal of [slice(0, 5)] as a parameter;
    [now] is the value of [Date.now()]. *)
Definition saveScoreTop (top : nat) (correct total : Z)
    (timeSeconds : option Q) (now : Z) (s : State) : State :=
  let pushed :=
    highScores s ++ [mkScore correct total (numberOrNull timeSeconds) now] in
  let sorted := sort compareFn pushed in
  let kept := slice0 top sorted in
  renderScoreBoard kept (set_highScores kept s).

Definition saveScore : Z -> Z -> option Q -> Z -> State -> State :=
  saveScoreTop 5.

(** *** Game logic (lines 158-255) *)

Section Game.

(** [google.maps.geometry.spherical.computeDistanceBetween]. *)
Variable computeDistanceBetween : LatLng -> LatLng -> Q.

(** [now] is the reading of [performance.now()], [date] of [Date.now()],
    when the function runs. *)
Definition endGame (now : Q) (date : Z) (s : State) : State :=
  let s1 := set_startBtnDisabled false (set_guessingEnabled false s) in
  let '(totalTime, s2) := stopTimer now s1 in
  let s3 := saveScore (correctCount s2) (len LOCATIONS) totalTime date s2 in
  set_promptEl PromptGameOver s3.

Definition startRound (now : Q) (date : Z) (s : State) : State :=
  if (currentIndex s >=? len LOCATIONS)%Z then endGame now date s
  else
    let s1 := set_guessingEnabled true s in
    match lookup LOCATIONS (currentIndex s1) with
    | None => threw s1
    | Some loc =>
        set_promptEl
          (PromptRound (currentIndex s1 + 1) (len LOCATIONS)
             (name loc) (grid loc)) s1
    end.

Definition startGame (now : Q) (date : Z) (s : State) : State :=
  let s1 := updateScore (set_correctCount 0 (set_currentIndex 0 s)) in
  let s2 := set_promptEl PromptStarted (set_statusEl "" s1) in
  let s3 := set_startBtnDisabled true s2 in
  let s4 := startTimer now s3 in
  startRound now date s4.

Definition handleGuess (latLng : LatLng) (s : State) : State :=
  let s1 := set_guessingEnabled false s in
  match lookup LOCATIONS (currentIndex s1) with
  | None => threw s1
  | Some loc =>
      let locLatLng := position loc in
      let distance := computeDistanceBetween latLng locLatLng in
      let s2 := set_evaluated (evaluated s1 ++ [(latLng, locLatLng)]) s1 in
      let isCorrect := Qle_bool distance CORRECT_DISTANCE_METERS in
      let s3 :=
        if isCorrect then
          set_statusEl "Correct!"
            (set_correctCount (correctCount s2 + 1) s2)
        else
          set_statusEl
            "Incorrect. The correct area is highlighted in red." s2 in
      let s4 := updateScore s3 in
      let s5 := set_currentIndex (currentIndex s4 + 1) s4 in
      if (currentIndex s5 <? len LOCATIONS)%Z then
        setTimeout CbStartRound (set_promptEl PromptGetReady s5)
      else
        setTimeout CbEndGame s5
  end.

(** *** The event loop *)

(** What the page reacts to: a click on the start button, a double click
    on the map (lines 135-138), the oldest pending timeout, the timer
    interval. *)
Inductive Event : Type :=
| Click (now : Q) (date : Z)
| DblClick (latLng : LatLng)
| TimeoutFires (now : Q) (date : Z)
| IntervalFires (now : Q).

(** The [dblclick] listener of [initMap]. *)
Definition onDblClick (latLng : LatLng) (s : State) : State :=
  if negb (guessingEnabled s) then s else handleGuess latLng s.

Definition runCallback (cb : Callback) (now : Q) (date : Z) (s : State)
  : State :=
  match cb with
  | CbStartRound => startRound now date s
  | CbEndGame => endGame now date s
  end.

Definition step (s : State) (ev : Event) : State :=
  match ev with
  | Click now date =>
      (* a disabled button dispatches no click *)
      if startBtnDisabled s then s else startGame now date s
  | DblClick latLng => onDblClick latLng s
  | TimeoutFires now date =>
      match timeouts s with
      | [] => s
      | cb :: rest => runCallback cb now date (set_timeouts rest s)
      end
  | IntervalFires now =>
      match intervals s with
      | [] => s
      | _ :: _ => updateTimerDisplay now s
      end
  end.

(** The page once [initMap] has run: the declared initial values of the
    globals, and the empty score board drawn by [loadScoresFromStorage]. *)
Definition initial : State :=
  loadScoresFromStorage
    (mkState 0 0 false None None [] false PromptPage "" None None
       (BoardText "") [] [] 1%positive [] 0).

Definition run (evs : list Event) : State := fold_left step evs initial.

End Game.

End InMemory.

(** * Second variant: high scores in [localStorage], top 10

    Lines 422-762 repeat the first variant's configuration, state, game
    logic and timer, except that this [endGame] does not call [saveScore];
    the part embedded here is the score board (lines 764-841). *)

Module Persisted.

(** What [JSON.parse] returns for a text it accepts: something that is not
    an array, an array of score entries as [saveScore] writes them, or an
    array that also holds [null], given as the entries in front of the
    first [null] and the elements behind it ([None] is [null]).  Reading a
    property of a [null] element throws; arrays holding other values that
    are not score entries are not covered: nothing throws on them, but the
    comparator is then not consistent and the order the engine's sort
    leaves is implementation-defined. *)
Inductive Parsed : Type :=
| NotAnArray
| AnArray (scores : list ScoreEntry)
| NullInArray (before : list ScoreEntry) (behind : list (option ScoreEntry)).

(** A stored string, by what the program can observe of it: whether it is
    empty, and what [JSON.parse] makes of it. *)
Inductive StoredText : Type :=
| EmptyText
| NotJson
| JsonOf (v : Parsed).

(** The value under [SCORES_KEY] ([None]: no such key) and the score
    board element. *)
Record State : Type := mkState {
  item : option StoredText;
  highScoreEl : Board
}.

(** Whether the storage backend throws on this call (access denied, quota
    exceeded). *)
Record Backend : Type := mkBackend {
  getItemThrows : bool;
  setItemThrows : bool
}.

Definition healthy : Backend := mkBackend false false.

(** A statement completes normally with a value or throws. *)
Inductive Completion (A : Type) : Type :=
| Normal (a : A)
| Throw.
Arguments Normal {A} a.
Arguments Throw {A}.

Definition bind {A B : Type} (c : Completion A) (k : A -> Completion B)
  : Completion B :=
  match c with
  | Normal a => k a
  | Throw => Throw
  end.

Notation "x <- c ;; k" := (bind c (fun x => k))
  (at level 61, c at next level, right associativity).

(** [try { body } catch { handler }]. *)
Definition tryCatch {A : Type} (body : Completion A) (handler : A) : A :=
  match body with
  | Normal a => a
  | Throw => handler
  end.

Definition getItem (io : Backend) (s : State)
  : Completion (option StoredText) :=
  if getItemThrows io then Throw else Normal (item s).

(** A failed write leaves the stored value as it was. *)
Definition setItem (io : Backend) (v : StoredText) (s : State)
  : Completion State :=
  if setItemThrows io then Throw else Normal (mkState (Some v) (highScoreEl s)).

Definition JSON_parse (t : StoredText) : Completion Parsed :=
  match t with
  | EmptyText => Throw
  | NotJson => Throw
  | JsonOf v => Normal v
  end.

Definition JSON_stringify (scores : list ScoreEntry) : StoredText :=
  JsonOf (AnArray scores).

(** The elements of a parsed array; [None] for a value that is not an
    array ([Array.isArray] false). *)
Definition arrayOf (v : Parsed) : option (list (option ScoreEntry)) :=
  match v with
  | NotAnArray => None
  | AnArray scores => Some (map Some scores)
  | NullInArray before behind => Some (map Some before ++ None :: behind)
  end.

(** The parsed value an array of elements is. *)
Fixpoint parsedArray (arr : list (option ScoreEntry)) : Parsed :=
  match arr with
  | [] => AnArray []
  | None :: behind => NullInArray [] behind
  | Some e :: rest =>
      match parsedArray rest with
      | AnArray scores => AnArray (e :: scores)
      | NullInArray before behind => NullInArray (e :: before) behind
      | NotAnArray => NotAnArray
      end
  end.

(** [JSON.stringify] of an array of elements. *)
Definition stringifyArray (arr : list (option ScoreEntry)) : StoredText :=
  JsonOf (parsedArray arr).

(** The elements as score entries, when none is [null]. *)
Fixpoint entries (arr : list (option ScoreEntry)) : option (list ScoreEntry) :=
  match arr with
  | [] => Some []
  | None :: _ => None
  | Some e :: rest =>
      match entries rest with
      | Some scores => Some (e :: scores)
      | None => None
      end
  end.

Definition set_highScoreEl (v : Board) (s : State) : State :=
  mkState (item s) v.

(** Lines 803-811. *)
Definition compareFn (a b : ScoreEntry) : Q :=
  if negb (correct b =? correct a)%Z then
    inject_Z (correct b - correct a)
  else if isNull (timeSeconds a) && isNull (timeSeconds b) then 0
  else if isNull (timeSeconds a) then 1
  else if isNull (timeSeconds b) then -1
  else numberOf (timeSeconds a) - numberOf (timeSeconds b).

(** The comparator on the elements of a parsed array: its first step reads
    [b.correct] and [a.correct], which throws on [null]. *)
Definition compareElements (a b : option ScoreEntry) : Completion Q :=
  match b, a with
  | Some b', Some a' => Normal (compareFn a' b')
  | _, _ => Throw
  end.

(** [place] and [sort] for a comparator that may throw: the first throw
    ends the sort. *)
Fixpoint placeArray (x : option ScoreEntry) (l : list (option ScoreEntry))
  : Completion (list (option ScoreEntry)) :=
  match l with
  | [] => Normal [x]
  | y :: t =>
      v <- compareElements y x ;;
      if negb (Qle_bool v 0) then Normal (x :: y :: t)
      else t' <- placeArray x t ;; Normal (y :: t')
  end.

Definition sortArray (l : list (option ScoreEntry))
  : Completion (list (option ScoreEntry)) :=
  fold_left (fun acc x => a <- acc ;; placeArray x a) l (Normal []).

Definition renderScoreBoard (scores : list ScoreEntry) (s : State) : State :=
  match scores with
  | [] => set_highScoreEl (BoardText "High Scores: none yet") s
  | _ :: _ => set_highScoreEl (BoardRows scores) s
  end.

(** [renderScoreBoard] on the elements of a parsed array: building a row
    reads [s.correct], which throws on [null] before the element is
    written. *)
Definition renderArray (arr : list (option ScoreEntry)) (s : State)
  : Completion State :=
  match entries arr with
  | Some scores => Normal (renderScoreBoard scores s)
  | None => Throw
  end.

Definition loadScoresFromStorage (io : Backend) (s : State) : State :=
  tryCatch
    (saved <- getItem io s ;;
     match saved with
     | None | Some EmptyText =>
         (* !saved *)
         Normal (set_highScoreEl (BoardText "High Scores: N/A") s)
     | Some t =>
         scores <- JSON_parse t ;;
         match arrayOf scores with
         | None | Some [] =>
             Normal (set_highScoreEl (BoardText "High Scores: N/A") s)
         | Some arr => renderArray arr s
         end
     end)
    (set_highScoreEl (BoardText "High Scores: Unavailable") s).

(** [saveScore] with the literal of [slice(0, 10)] as a parameter.  The
    catch block is empty: a throw before the write leaves the state as it
    was, a throw behind it leaves the write done. *)
Definition saveScoreTop (top : nat) (io : Backend) (correct total : Z)
    (timeSeconds : option Q) (now : Z) (s : State) : State :=
  tryCatch
    (saved <- getItem io s ;;
     scores <-
       match saved with
       | None | Some EmptyText => Normal [] (* !saved *)
       | Some t =>
           parsed <- JSON_parse t ;;
           match arrayOf parsed with
           | Some arr => Normal arr
           | None => Normal []
           end
       end ;;
     let pushed :=
       scores ++
       [Some (mkScore correct total (numberOrNull timeSeconds) now)] in
     sorted <- sortArray pushed ;;
     let kept := slice0 top sorted in
     s1 <- setItem io (stringifyArray kept) s ;;
     Normal (tryCatch (renderArray kept s1) s1))
    s.

Definition saveScore
  : Backend -> Z -> Z -> option Q -> Z -> State -> State :=
  saveScoreTop 10.

(** The leaderboard a reader of the store gets: the stored array of score
    entries, empty when there is none. *)
Definition leaderboard (s : State) : list ScoreEntry :=
  match item s with
  | Some (JsonOf (AnArray scores)) => scores
  | _ => []
  end.

End Persisted.

(** * Second variant: the game (lines 474-655)

    The globals, the page elements, the timer, [handleGuess] and the
    [dblclick] listener are those of the first variant, and its definitions
    are used for them; [endGame] is not, and with it [startRound],
    [startGame] and the event loop.  There is no [highScores] array here:
    the score board lives in the store.  The two fields the first variant
    keeps for it are held at [forget]'s values and never read. *)

Module PersistedGame.

(** The game state without the first variant's score board. *)
Definition forget (g : InMemory.State) : InMemory.State :=
  InMemory.set_highScoreEl (BoardText "") (InMemory.set_highScores [] g).

(** The game and the store with its score board element. *)
Record Page : Type := mkPage {
  game : InMemory.State;
  store : Persisted.State
}.

(** Lines 640-655: the summary is shown and nothing is saved. *)
Definition endGame (now : Q) (g : InMemory.State) : InMemory.State :=
  let g1 :=
    InMemory.set_startBtnDisabled false (InMemory.set_guessingEnabled false g) in
  let '(totalTime, g2) := InMemory.stopTimer now g1 in
  InMemory.set_promptEl InMemory.PromptGameOver g2.

(** Lines 575-588. *)
Definition startRound (now : Q) (g : InMemory.State) : InMemory.State :=
  if (InMemory.currentIndex g >=? len LOCATIONS)%Z then endGame now g
  else
    let g1 := InMemory.set_guessingEnabled true g in
    match lookup LOCATIONS (InMemory.currentIndex g1) with
    | None => InMemory.threw g1
    | Some loc =>
        InMemory.set_promptEl
          (InMemory.PromptRound (InMemory.currentIndex g1 + 1) (len LOCATIONS)
             (name loc) (grid loc)) g1
    end.

(** Lines 553-573. *)
Definition startGame (now : Q) (g : InMemory.State) : InMemory.State :=
  let g1 :=
    InMemory.updateScore
      (InMemory.set_correctCount 0 (InMemory.set_currentIndex 0 g)) in
  let g2 :=
    InMemory.set_promptEl InMemory.PromptStarted (InMemory.set_statusEl "" g1) in
  let g3 := InMemory.set_startBtnDisabled true g2 in
  let g4 := InMemory.startTimer now g3 in
  startRound now g4.

Definition runCallback (cb : InMemory.Callback) (now : Q) (g : InMemory.State)
  : InMemory.State :=
  match cb with
  | InMemory.CbStartRound => startRound now g
  | InMemory.CbEndGame => endGame now g
  end.

(** The event loop; the [Date.now()] carried by the events is not read. *)
Definition stepGame (dist : LatLng -> LatLng -> Q) (g : InMemory.State)
    (ev : InMemory.Event) : InMemory.State :=
  match ev with
  | InMemory.Click now _ =>
      if InMemory.startBtnDisabled g then g else startGame now g
  | InMemory.DblClick latLng => InMemory.onDblClick dist latLng g
  | InMemory.TimeoutFires now _ =>
      match InMemory.timeouts g with
      | [] => g
      | cb :: rest => runCallback cb now (InMemory.set_timeouts rest g)
      end
  | InMemory.IntervalFires now =>
      match InMemory.intervals g with
      | [] => g
      | _ :: _ => InMemory.updateTimerDisplay now g
      end
  end.

(** No handler of the game touches the store. *)
Definition step (dist : LatLng -> LatLng -> Q) (p : Page) (ev : InMemory.Event)
  : Page :=
  mkPage (stepGame dist (game p) ev) (store p).

(** The page once [initMap] has run over a store found in state [s0], the
    backend behaving as [io] for the one read it makes. *)
Definition initial (io : Persisted.Backend) (s0 : Persisted.State) : Page :=
  mkPage (forget InMemory.initial) (Persisted.loadScoresFromStorage io s0).

Definition run (dist : LatLng -> LatLng -> Q) (io : Persisted.Backend)
    (s0 : Persisted.State) (evs : list InMemory.Event) : Page :=
  fold_left (step dist) evs (initial io s0).

End PersistedGame.

(** * Sequences of recordings *)

(** The arguments of one call of [saveScore], with the [Date.now()] it
    reads. *)
Record Recording : Type := mkRecording {
  rCorrect : Z;
  rTotal : Z;
  rTime : option Q;
  rNow : Z
}.

(** The entry [saveScore] pushes for a recording. *)
Definition entryOf (r : Recording) : ScoreEntry :=
  mkScore (rCorrect r) (rTotal r) (numberOrNull (rTime r)) (rNow r).

Definition recordInMemory (top : nat) (s : InMemory.State) (r : Recording)
  : InMemory.State :=
  InMemory.saveScoreTop top (rCorrect r) (rTotal r) (rTime r) (rNow r) s.

(** Each call of the persisted [saveScore] meets the backend in some
    condition. *)
Definition recordPersisted (top : nat) (s : Persisted.State)
    (c : Persisted.Backend * Recording) : Persisted.State :=
  let '(io, r) := c in
  Persisted.saveScoreTop top io (rCorrect r) (rTotal r) (rTime r) (rNow r) s.

(** A store that has never been written, with the board cleared. *)
Definition emptyStore : Persisted.State :=
  Persisted.mkState None (BoardText "").

(** * Ranking orders *)

(** [cmp] is a consistent comparator: swapping the arguments swaps the
    sign, and "not after" is transitive; so "not after" is a total
    preorder, whose ties are the pairs [cmp] sends to zero. *)
Definition Consistent {A : Type} (cmp : A -> A -> Q) : Prop :=
  (forall a b, cmp a b < 0 <-> 0 < cmp b a) /\
  (forall a b c, cmp a b <= 0 -> cmp b c <= 0 -> cmp a c <= 0).

(** The ranking of the score board, as a description of a comparator:
    more correct answers first; at equal [correct], less time first, an
    entry without time after every entry with one, and two entries without
    time tied. *)
Definition RanksScores (cmp : ScoreEntry -> ScoreEntry -> Q) : Prop :=
  (forall a b, (correct b < correct a)%Z -> cmp a b < 0) /\
  (forall a b ta tb,
      correct a = correct b ->
      timeSeconds a = Some ta -> timeSeconds b = Some tb ->
      (cmp a b < 0 <-> ta < tb) /\ (cmp a b == 0 <-> ta == tb)) /\
  (forall a b ta,
      correct a = correct b ->
      timeSeconds a = Some ta -> timeSeconds b = None ->
      cmp a b < 0) /\
  (forall a b,
      correct a = correct b ->
      timeSeconds a = None -> timeSeconds b = None ->
      cmp a b == 0).

(** [l] is in ranking order: no element is ranked after a later one. *)
Definition Ranked {A : Type} (cmp : A -> A -> Q) (l : list A) : Prop :=
  StronglySorted (notAfter cmp) l.

(** [l'] keeps the elements of [l], and the elements tied with any given
    one in the order they have in [l]. *)
Definition KeepsTiesInOrder {A : Type} (cmp : A -> A -> Q) (l l' : list A)
  : Prop :=
  forall x, filter (tiesWith cmp x) l' = filter (tiesWith cmp x) l.

(** * Notions used by the statements *)

(** The array of score entries the persisted [saveScore] starts from, when
    it can: empty for a missing, empty or non-array value; [None] when
    [JSON.parse] throws, or the array holds a [null], on which the
    comparator throws. *)
Definition readScores (s : Persisted.State) : option (list ScoreEntry) :=
  match Persisted.item s with
  | None | Some Persisted.EmptyText => Some []
  | Some Persisted.NotJson => None
  | Some (Persisted.JsonOf Persisted.NotAnArray) => Some []
  | Some (Persisted.JsonOf (Persisted.AnArray scores)) => Some scores
  | Some (Persisted.JsonOf (Persisted.NullInArray _ _)) => None
  end.

(** The board [renderScoreBoard] draws for an array. *)
Definition boardOf (scores : list ScoreEntry) : Board :=
  match scores with
  | [] => BoardText "High Scores: none yet"
  | _ :: _ => BoardRows scores
  end.

(** The ranking step shared by the proofs: push, sort, cut. *)
Definition pushSortCut (top : nat) (scores : list ScoreEntry) (e : ScoreEntry)
  : list ScoreEntry :=
  slice0 top (sort InMemory.compareFn (scores ++ [e])).

(** The store holds exactly the array [l] for a reader and for the next
    [saveScore]. *)
Definition Holds (s : Persisted.State) (l : list ScoreEntry) : Prop :=
  readScores s = Some l /\ Persisted.leaderboard s = l.

(** The stored leaderboard is within [top] entries and ranked. *)
Definition StoredRanked (top : nat) (s : Persisted.State) : Prop :=
  (List.length (Persisted.leaderboard s) <= top)%nat /\
  Ranked Persisted.compareFn (Persisted.leaderboard s).

(** Eight games, some without a recorded time. *)
Definition eightRecordings : list Recording :=
  [ mkRecording 3 5 (Some 10) 1; mkRecording 5 5 (Some 20) 2;
    mkRecording 5 5 (Some 15) 3; mkRecording 5 5 None 4;
    mkRecording 0 5 (Some 7.5) 5; mkRecording 4 5 None 6;
    mkRecording 5 5 (Some 999) 7; mkRecording 4 5 None 8 ].

(** The part of the state the round logic decides on. *)
Definition core (s : InMemory.State) : Z * Z * bool * nat :=
  (InMemory.currentIndex s, InMemory.correctCount s,
   InMemory.guessingEnabled s, InMemory.uncaught s).

(** What holds of every state the page can be in: the counters are in
    range, a round is open only on a catalogue entry, and no handler has
    thrown. *)
Definition Inv (s : InMemory.State) : Prop :=
  (0 <= InMemory.correctCount s <= InMemory.currentIndex s)%Z /\
  (InMemory.currentIndex s <= len LOCATIONS)%Z /\
  (InMemory.guessingEnabled s = true ->
   (InMemory.currentIndex s < len LOCATIONS)%Z) /\
  InMemory.uncaught s = 0%nat.



(** A stand-in for the distance primitive that reads the distance off the
    guess, to steer a run. *)
Definition metersInLat (guess target : LatLng) : Q := lat guess.

(** Five rounds, three guesses within 50 m (one of them at exactly 50) and
    two outside, clock readings in milliseconds. *)
Definition fiveRounds : list InMemory.Event :=
  [ InMemory.Click 1000 0;
    InMemory.DblClick (mkLatLng 12 0);
    InMemory.TimeoutFires 3000 2000;
    InMemory.DblClick (mkLatLng 50.0001 0);
    InMemory.TimeoutFires 6000 5000;
    InMemory.DblClick (mkLatLng 50 0);
    InMemory.DblClick (mkLatLng 1 0);
    InMemory.TimeoutFires 9000 8000;
    InMemory.DblClick (mkLatLng 300 0);
    InMemory.TimeoutFires 12000 11000;
    InMemory.DblClick (mkLatLng 0 0);
    InMemory.TimeoutFires 15000 14000 ].

(** ** Notions for the game as a whole *)

(** What [stopTimer] returns at clock reading [now]. *)
Definition elapsed (now : Q) (s : InMemory.State) : option Q :=
  if falsyNum (InMemory.startTime s) then None
  else
    Some (toDouble (toDouble (now - numberOf (InMemory.startTime s)) / 1000)).

(** The callback a resolved round has pending. *)
Definition pendingFor (s : InMemory.State) : InMemory.Callback :=
  if (InMemory.currentIndex s <? len LOCATIONS)%Z
  then InMemory.CbStartRound else InMemory.CbEndGame.

(** The three phases of the page. *)
Inductive Phase : Type := Idle | RoundActive | RoundResolved.

(** The phase a state is in, read off the start button, the guessing flag
    and the pending timeouts; [None] for any other combination. *)
Definition phaseOf (s : InMemory.State) : option Phase :=
  match InMemory.startBtnDisabled s, InMemory.guessingEnabled s,
        InMemory.timeouts s with
  | false, false, [] => Some Idle
  | true, true, [] => Some RoundActive
  | true, false, [_] => Some RoundResolved
  | _, _, _ => None
  end.

(** The browser's active intervals are exactly the one [timerInterval]
    names, if any. *)
Definition OneInterval (s : InMemory.State) : Prop :=
  InMemory.intervals s =
  match InMemory.timerInterval s with
  | Some h => [h]
  | None => []
  end.

(** Whether a guess is within the threshold of a target. *)
Definition within (dist : LatLng -> LatLng -> Q) (g : LatLng) (loc : Location)
  : bool :=
  Qle_bool (dist g (position loc)) CORRECT_DISTANCE_METERS.

(** How many of the guesses are within the threshold of the target at the
    same place in [targets]. *)
Fixpoint judged (dist : LatLng -> LatLng -> Q) (gs : list LatLng)
    (targets : list Location) : Z :=
  match gs, targets with
  | g :: gs', loc :: targets' =>
      ((if within dist g loc then 1 else 0) + judged dist gs' targets')%Z
  | _, _ => 0%Z
  end.

(** One round as the player lives it: a double click at [fst], then the
    pacing timeout firing with the clocks at [snd]. *)
Definition roundEvents (r : LatLng * (Q * Z)) : list InMemory.Event :=
  [InMemory.DblClick (fst r); InMemory.TimeoutFires (fst (snd r)) (snd (snd r))].

Definition roundsEvents (rs : list (LatLng * (Q * Z))) : list InMemory.Event :=
  flat_map roundEvents rs.

(** An entry a game of this catalogue can have recorded. *)
Definition GameEntry (e : ScoreEntry) : Prop :=
  total e = len LOCATIONS /\ (0 <= correct e <= len LOCATIONS)%Z.

(** The clock reading of a click on the start button is not zero. *)
Definition clickClockNonZero (ev : InMemory.Event) : Prop :=
  match ev with
  | InMemory.Click now _ => ~ now == 0
  | _ => True
  end.

(** What the phase promises about the round counter and the pending
    timeout. *)
Definition PhaseOk (s : InMemory.State) : Prop :=
  match phaseOf s with
  | Some Idle => True
  | Some RoundActive => (InMemory.currentIndex s < len LOCATIONS)%Z
  | Some RoundResolved =>
      (1 <= InMemory.currentIndex s)%Z /\
      InMemory.timeouts s = [pendingFor s]
  | None => False
  end.

(** The score text, once written, shows the current count. *)
Definition ScoreShown (s : InMemory.State) : Prop :=
  InMemory.scoreEl s = None \/
  InMemory.scoreEl s = Some (InMemory.correctCount s, len LOCATIONS).

(** Everything the page keeps true from load on. *)
Definition Sound (s : InMemory.State) : Prop :=
  Inv s /\ PhaseOk s /\ OneInterval s /\ ScoreShown s /\
  InMemory.highScoreEl s = boardOf (InMemory.highScores s) /\
  Ranked InMemory.compareFn (InMemory.highScores s) /\
  (List.length (InMemory.highScores s) <= 5)%nat /\
  Forall GameEntry (InMemory.highScores s).

(** The timer runs exactly while a game is on. *)
Definition TimerFollowsGame (s : InMemory.State) : Prop :=
  if InMemory.startBtnDisabled s then
    (exists t, InMemory.startTime s = Some t /\ ~ t == 0) /\
    (exists h, InMemory.timerInterval s = Some h)
  else
    InMemory.startTime s = None /\ InMemory.timerInterval s = None.

(** Three rounds with their clocks, the second guess off target. *)
Definition threeRounds : list (LatLng * (Q * Z)) :=
  [ (mkLatLng 12 0, (3000, 2000%Z));
    (mkLatLng 80 0, (6000, 5000%Z));
    (mkLatLng 50 0, (9000, 8000%Z)) ].

(** [y] ranks strictly worse than [e]: the comparator sends [(y, e)] to a
    positive number. *)
Definition worseThan (e y : ScoreEntry) : bool :=
  comesAfter InMemory.compareFn y e.

(** [e] put below the entries that rank at least as well and above the
    entries that rank worse. *)
Definition insertRanked (e : ScoreEntry) (l : list ScoreEntry)
  : list ScoreEntry :=
  filter (fun y => negb (worseThan e y)) l ++ e :: filter (worseThan e) l.

(** The game of [fiveRounds], its start button clicked at clock reading 0. *)
Definition gameFromClockZero : list InMemory.Event :=
  InMemory.Click 0 0 :: tl fiveRounds.

(** * The sort, for a consistent comparator *)

Section SortTheory.

Context {A : Type}.
Variable cmp : A -> A -> Q.
Hypothesis cmp_consistent : Consistent cmp.

Let cmp_flip : forall a b, cmp a b < 0 <-> 0 < cmp b a :=
  proj1 cmp_consistent.
Let cmp_trans :
  forall a b c, cmp a b <= 0 -> cmp b c <= 0 -> cmp a c <= 0 :=
  proj2 cmp_consistent.

Lemma comesAfter_true (x y : A) : comesAfter cmp x y = true <-> 0 < cmp x y.
Proof.
  unfold comesAfter. rewrite negb_true_iff.
  split; intro H.
  - destruct (Qlt_le_dec 0 (cmp x y)) as [Hlt | Hle]; [exact Hlt |].
    apply Qle_bool_iff in Hle. congruence.
  - destruct (Qle_bool (cmp x y) 0) eqn:E; [| reflexivity].
    apply Qle_bool_iff in E. lra.
Qed.

Lemma comesAfter_false (x y : A) :
  comesAfter cmp x y = false <-> notAfter cmp x y.
Proof.
  unfold comesAfter, notAfter. rewrite negb_false_iff.
  apply Qle_bool_iff.
Qed.

Lemma tiesWith_true (x y : A) : tiesWith cmp x y = true <-> cmp x y == 0.
Proof. unfold tiesWith. apply Qeq_bool_iff. Qed.

Lemma cmp_refl (a : A) : cmp a a == 0.
Proof.
  destruct (Q_dec (cmp a a) 0) as [[Hlt | Hgt] | Heq]; [| | exact Heq].
  - pose proof (proj1 (cmp_flip a a) Hlt). lra.
  - pose proof (proj2 (cmp_flip a a) Hgt). lra.
Qed.

Lemma notAfter_total (a b : A) : notAfter cmp a b \/ notAfter cmp b a.
Proof.
  unfold notAfter.
  destruct (Qlt_le_dec 0 (cmp a b)) as [Hgt | Hle]; [right | left; exact Hle].
  apply cmp_flip in Hgt. lra.
Qed.

Lemma tie_sym (a b : A) : cmp a b == 0 -> cmp b a == 0.
Proof.
  intro H.
  destruct (Q_dec (cmp b a) 0) as [[Hlt | Hgt] | Heq]; [| | exact Heq].
  - apply cmp_flip in Hlt. lra.
  - apply cmp_flip in Hgt. lra.
Qed.

Lemma tie_iff (a b : A) :
  cmp a b == 0 <-> notAfter cmp a b /\ notAfter cmp b a.
Proof.
  unfold notAfter. split.
  - intro H. pose proof (tie_sym _ _ H). lra.
  - intros [H1 H2].
    destruct (Qlt_le_dec (cmp a b) 0) as [Hlt | Hge]; [| lra].
    apply cmp_flip in Hlt. lra.
Qed.

(** *** [place] *)

Lemma place_perm (x : A) (l : list A) : Permutation (place cmp x l) (x :: l).
Proof.
  induction l as [| y t IH]; simpl.
  - reflexivity.
  - destruct (comesAfter cmp y x).
    + reflexivity.
    + rewrite IH. apply perm_swap.
Qed.

Lemma place_length (x : A) (l : list A) :
  List.length (place cmp x l) = S (List.length l).
Proof. apply (Permutation_length (place_perm x l)). Qed.

Lemma place_ranked (x : A) (l : list A) :
  Ranked cmp l -> Ranked cmp (place cmp x l).
Proof.
  unfold Ranked.
  induction l as [| y t IH]; intro Hs; simpl.
  - repeat constructor.
  - apply StronglySorted_inv in Hs. destruct Hs as [Hst Hall].
    destruct (comesAfter cmp y x) eqn:E.
    + apply comesAfter_true in E.
      assert (Hxy : notAfter cmp x y).
      { unfold notAfter. apply cmp_flip in E. lra. }
      constructor.
      * constructor; assumption.
      * constructor; [exact Hxy |].
        eapply Forall_impl; [| exact Hall].
        intros z Hz. exact (cmp_trans _ _ _ Hxy Hz).
    + apply comesAfter_false in E.
      constructor; [apply IH; exact Hst |].
      rewrite (place_perm x t). constructor; assumption.
Qed.

(** Behind elements that are all not after [x], [x] goes last. *)
Lemma place_last (x : A) (l : list A) :
  Forall (fun y => notAfter cmp y x) l -> place cmp x l = l ++ [x].
Proof.
  induction 1 as [| y t Hy Ht IH]; simpl; [reflexivity |].
  apply comesAfter_false in Hy. rewrite Hy, IH. reflexivity.
Qed.

(** Cutting before or after placing gives the same first [k] elements. *)
Lemma slice0_place (k : nat) (x : A) (l : list A) :
  slice0 k (place cmp x (slice0 k l)) = slice0 k (place cmp x l).
Proof.
  unfold slice0. revert l.
  induction k as [| k IH]; intro l; [reflexivity |].
  destruct l as [| y t]; [reflexivity |].
  simpl. destruct (comesAfter cmp y x); simpl.
  - f_equal. destruct k; [reflexivity |].
    rewrite !firstn_cons. f_equal.
    rewrite firstn_firstn. f_equal. lia.
  - f_equal. apply IH.
Qed.

(** *** [sort] *)

Lemma sort_snoc (l : list A) (x : A) :
  sort cmp (l ++ [x]) = place cmp x (sort cmp l).
Proof. unfold sort. rewrite fold_left_app. reflexivity. Qed.

Lemma sort_perm (l : list A) : Permutation (sort cmp l) l.
Proof.
  induction l as [| x l IH] using rev_ind; [reflexivity |].
  rewrite sort_snoc, place_perm, IH.
  apply Permutation_cons_append.
Qed.

Lemma sort_length (l : list A) : List.length (sort cmp l) = List.length l.
Proof. apply (Permutation_length (sort_perm l)). Qed.

Lemma sort_ranked (l : list A) : Ranked cmp (sort cmp l).
Proof.
  induction l as [| x l IH] using rev_ind.
  - constructor.
  - rewrite sort_snoc. apply place_ranked, IH.
Qed.

Lemma ranked_snoc_inv (l : list A) (x : A) :
  Ranked cmp (l ++ [x]) ->
  Ranked cmp l /\ Forall (fun y => notAfter cmp y x) l.
Proof.
  unfold Ranked.
  induction l as [| y t IH]; simpl; intro H.
  - split; constructor.
  - apply StronglySorted_inv in H. destruct H as [Ht Hy].
    destruct (IH Ht) as [IH1 IH2].
    apply Forall_app in Hy. destruct Hy as [Hy1 Hy2].
    split.
    + constructor; assumption.
    + constructor; [| exact IH2].
      inversion Hy2; assumption.
Qed.

(** A ranked array is left as it is. *)
Lemma sort_ranked_id (l : list A) : Ranked cmp l -> sort cmp l = l.
Proof.
  induction l as [| x l IH] using rev_ind; intro H; [reflexivity |].
  apply ranked_snoc_inv in H. destruct H as [Hl Hx].
  rewrite sort_snoc, (IH Hl). apply place_last, Hx.
Qed.

Lemma ranked_slice0 (k : nat) (l : list A) :
  Ranked cmp l -> Ranked cmp (slice0 k l).
Proof.
  unfold Ranked, slice0. revert k.
  induction l as [| y t IH]; intros k H.
  - rewrite firstn_nil. constructor.
  - destruct k; [constructor |].
    apply StronglySorted_inv in H. destruct H as [Ht Hy].
    rewrite firstn_cons. constructor; [apply IH; exact Ht |].
    rewrite <- (firstn_skipn k t) in Hy.
    apply Forall_app in Hy. apply Hy.
Qed.

(** *** Stability *)

(** In a ranked array, everything from an element that comes after [e]
    onwards comes after [e]. *)
Lemma ranked_all_after (e y : A) (t : list A) :
  Ranked cmp (y :: t) -> 0 < cmp y e ->
  Forall (fun z => 0 < cmp z e) (y :: t).
Proof.
  intros Hs Hy. apply StronglySorted_inv in Hs. destruct Hs as [_ Hall].
  constructor; [exact Hy |].
  eapply Forall_impl; [| exact Hall].
  intros z Hyz.
  destruct (Qlt_le_dec 0 (cmp z e)) as [Hlt | Hle]; [exact Hlt |].
  pose proof (cmp_trans _ _ _ Hyz Hle). lra.
Qed.

Lemma filter_none (p : A -> bool) (l : list A) :
  Forall (fun z => p z = false) l -> filter p l = [].
Proof.
  induction 1 as [| z t Hz _ IH]; simpl; [reflexivity |].
  rewrite Hz. exact IH.
Qed.

Lemma place_keeps_ties (x e : A) (l : list A) :
  Ranked cmp l ->
  filter (tiesWith cmp x) (place cmp e l) =
  filter (tiesWith cmp x) (l ++ [e]).
Proof.
  induction l as [| y t IH]; intro Hs; [reflexivity |].
  simpl place. destruct (comesAfter cmp y e) eqn:E.
  - apply comesAfter_true in E.
    rewrite filter_app.
    destruct (tiesWith cmp x e) eqn:Hxe.
    + (* nothing from [y] onwards ties with [x] *)
      assert (Hnone : filter (tiesWith cmp x) (y :: t) = []).
      { apply filter_none.
        eapply Forall_impl; [| exact (ranked_all_after e y t Hs E)].
        intros z Hz. simpl in Hz.
        destruct (tiesWith cmp x z) eqn:Hxz; [| reflexivity].
        apply tiesWith_true in Hxe, Hxz.
        apply tie_iff in Hxe, Hxz.
        destruct Hxe as [Hxe _], Hxz as [_ Hzx].
        pose proof (cmp_trans _ _ _ Hzx Hxe). lra. }
      change (filter (tiesWith cmp x) (e :: y :: t))
        with (if tiesWith cmp x e
              then e :: filter (tiesWith cmp x) (y :: t)
              else filter (tiesWith cmp x) (y :: t)).
      rewrite Hxe, Hnone. simpl. rewrite Hxe. reflexivity.
    + change (filter (tiesWith cmp x) (e :: y :: t))
        with (if tiesWith cmp x e
              then e :: filter (tiesWith cmp x) (y :: t)
              else filter (tiesWith cmp x) (y :: t)).
      rewrite Hxe. simpl filter at 3. rewrite Hxe, app_nil_r. reflexivity.
  - apply StronglySorted_inv in Hs. destruct Hs as [Ht _].
    simpl. rewrite (IH Ht). reflexivity.
Qed.

(** The sort is stable. *)
Lemma sort_stable (l : list A) : KeepsTiesInOrder cmp l (sort cmp l).
Proof.
  intro x. induction l as [| e l IH] using rev_ind; [reflexivity |].
  rewrite sort_snoc, (place_keeps_ties x e _ (sort_ranked l)).
  rewrite !filter_app, IH. reflexivity.
Qed.

(** Two ranked arrays with the same ties in the same order are equal:
    the result of a stable sort does not depend on the algorithm. *)
Lemma stable_sort_unique (l1 l2 : list A) :
  Ranked cmp l1 -> Ranked cmp l2 -> KeepsTiesInOrder cmp l1 l2 -> l2 = l1.
Proof.
  unfold KeepsTiesInOrder. revert l2.
  induction l1 as [| a t1 IH]; intros l2 H1 H2 Hties.
  - destruct l2 as [| b t2]; [reflexivity |].
    specialize (Hties b). simpl in Hties.
    rewrite (proj2 (tiesWith_true b b) (cmp_refl b)) in Hties.
    discriminate.
  - destruct l2 as [| b t2].
    + specialize (Hties a). simpl in Hties.
      rewrite (proj2 (tiesWith_true a a) (cmp_refl a)) in Hties.
      discriminate.
    + assert (Hfa := Hties a). assert (Hfb := Hties b).
      simpl in Hfa, Hfb.
      rewrite (proj2 (tiesWith_true a a) (cmp_refl a)) in Hfa.
      rewrite (proj2 (tiesWith_true b b) (cmp_refl b)) in Hfb.
      apply StronglySorted_inv in H1, H2.
      destruct H1 as [Ht1 Ha], H2 as [Ht2 Hb].
      (* [a] occurs in [b :: t2] and [b] in [a :: t1] *)
      assert (Hba : notAfter cmp b a).
      { assert (Hin : In a (filter (tiesWith cmp a) (b :: t2))).
        { simpl. rewrite Hfa. left; reflexivity. }
        apply filter_In in Hin. destruct Hin as [[<- | Hin] _].
        - unfold notAfter. pose proof (cmp_refl b). lra.
        - rewrite Forall_forall in Hb. apply Hb, Hin. }
      assert (Hab : notAfter cmp a b).
      { assert (Hin : In b (filter (tiesWith cmp b) (a :: t1))).
        { simpl. rewrite <- Hfb. left; reflexivity. }
        apply filter_In in Hin. destruct Hin as [[<- | Hin] _].
        - unfold notAfter. pose proof (cmp_refl a). lra.
        - rewrite Forall_forall in Ha. apply Ha, Hin. }
      assert (Htie : tiesWith cmp a b = true).
      { apply tiesWith_true, tie_iff. split; assumption. }
      rewrite Htie in Hfa. injection Hfa as Heq _. subst b.
      f_equal. apply IH; try assumption.
      intro x. specialize (Hties x). simpl in Hties.
      destruct (tiesWith cmp x a); [injection Hties as Hties |]; exact Hties.
Qed.

(** *** Keeping the first [k] after each insertion *)

Lemma slice0_sort_snoc (k : nat) (l : list A) (e : A) :
  slice0 k (sort cmp (slice0 k (sort cmp l) ++ [e])) =
  slice0 k (sort cmp (l ++ [e])).
Proof.
  rewrite !sort_snoc.
  rewrite (sort_ranked_id _ (ranked_slice0 k _ (sort_ranked l))).
  apply slice0_place.
Qed.

Lemma slice0_sort_run (k : nat) (es l : list A) :
  fold_left (fun acc e => slice0 k (sort cmp (acc ++ [e]))) es
    (slice0 k (sort cmp l)) =
  slice0 k (sort cmp (l ++ es)).
Proof.
  revert l. induction es as [| e es IH]; intro l; simpl.
  - rewrite app_nil_r. reflexivity.
  - rewrite slice0_sort_snoc, IH, <- app_assoc. reflexivity.
Qed.

End SortTheory.

(** * The comparator of the score board *)

Lemma inject_Z_neg (z : Z) : inject_Z z < 0 <-> (z < 0)%Z.
Proof. unfold Qlt, inject_Z; simpl. lia. Qed.

Lemma inject_Z_pos (z : Z) : 0 < inject_Z z <-> (0 < z)%Z.
Proof. unfold Qlt, inject_Z; simpl. lia. Qed.

Lemma inject_Z_nonpos (z : Z) : inject_Z z <= 0 <-> (z <= 0)%Z.
Proof. unfold Qle, inject_Z; simpl. lia. Qed.

Lemma inject_Z_zero (z : Z) : inject_Z z == 0 <-> z = 0%Z.
Proof. unfold Qeq, inject_Z; simpl. lia. Qed.

(** Opens a goal about [compareFn] into its branches and closes each by
    integer or rational arithmetic. *)
Ltac open_compareFn :=
  unfold InMemory.compareFn, isNull, numberOf in *;
  repeat match goal with
         | e : ScoreEntry |- _ => destruct e as [? ? [?|] ?]
         end;
  cbn [correct timeSeconds andb negb] in *;
  repeat match goal with
         | H : context [Z.eqb ?x ?y] |- _ =>
             destruct (Z.eqb_spec x y); cbn [negb andb] in H
         | |- context [Z.eqb ?x ?y] =>
             destruct (Z.eqb_spec x y); cbn [negb andb]
         end;
  rewrite ?inject_Z_neg, ?inject_Z_pos, ?inject_Z_nonpos, ?inject_Z_zero in *.

Ltac close_compareFn :=
  solve [ lia | lra | congruence
        | split; intros; solve [lia | lra | congruence] ].

Lemma compareFn_same (a b : ScoreEntry) :
  Persisted.compareFn a b = InMemory.compareFn a b.
Proof. reflexivity. Qed.

Lemma compareFn_consistent : Consistent InMemory.compareFn.
Proof.
  split.
  - intros a b. open_compareFn; close_compareFn.
  - intros a b c H1 H2. open_compareFn; close_compareFn.
Qed.

Lemma compareFn_ranks : RanksScores InMemory.compareFn.
Proof.
  repeat split; intros;
    repeat match goal with
           | H : timeSeconds ?a = _ |- _ =>
               destruct a; cbn [timeSeconds correct] in *; subst
           end;
    try match goal with H : Some _ = Some _ |- _ => injection H as <- end.
  all: open_compareFn; try close_compareFn.
Qed.

(** * What [saveScore] leaves behind *)

Lemma inMemory_saveScoreTop_highScores top c t ts now s :
  InMemory.highScores (InMemory.saveScoreTop top c t ts now s) =
  pushSortCut top (InMemory.highScores s) (mkScore c t (numberOrNull ts) now).
Proof.
  unfold InMemory.saveScoreTop, InMemory.renderScoreBoard, pushSortCut.
  destruct (slice0 _ _); reflexivity.
Qed.

Lemma inMemory_saveScoreTop_board top c t ts now s :
  InMemory.highScoreEl (InMemory.saveScoreTop top c t ts now s) =
  boardOf (InMemory.highScores (InMemory.saveScoreTop top c t ts now s)).
Proof.
  unfold InMemory.saveScoreTop, InMemory.renderScoreBoard, boardOf.
  destruct (slice0 _ _); reflexivity.
Qed.

Lemma inMemory_run_highScores top rs s :
  InMemory.highScores (fold_left (recordInMemory top) rs s) =
  fold_left (pushSortCut top) (map entryOf rs) (InMemory.highScores s).
Proof.
  revert s. induction rs as [| r rs IH]; intro s; simpl; [reflexivity |].
  rewrite IH. unfold recordInMemory.
  rewrite inMemory_saveScoreTop_highScores. reflexivity.
Qed.

(** ** The stored array and its elements *)

Lemma entries_map_Some (l : list ScoreEntry) :
  Persisted.entries (map Some l) = Some l.
Proof.
  induction l as [| e l IH]; [reflexivity |].
  cbn. rewrite IH. reflexivity.
Qed.

Lemma parsedArray_map_Some (l : list ScoreEntry) :
  Persisted.parsedArray (map Some l) = Persisted.AnArray l.
Proof.
  induction l as [| e l IH]; [reflexivity |].
  cbn. rewrite IH. reflexivity.
Qed.

Lemma placeArray_entries (x : ScoreEntry) (l : list ScoreEntry) :
  Persisted.placeArray (Some x) (map Some l) =
  Persisted.Normal (map Some (place InMemory.compareFn x l)).
Proof.
  induction l as [| y t IH]; [reflexivity |].
  cbn [map Persisted.placeArray Persisted.compareElements Persisted.bind place].
  change (Persisted.compareFn y x) with (InMemory.compareFn y x).
  change (negb (Qle_bool (InMemory.compareFn y x) 0))
    with (comesAfter InMemory.compareFn y x).
  destruct (comesAfter InMemory.compareFn y x); [reflexivity |].
  rewrite IH. reflexivity.
Qed.

Lemma sortArray_from (l acc : list ScoreEntry) :
  fold_left (fun a x => Persisted.bind a (Persisted.placeArray x))
    (map Some l) (Persisted.Normal (map Some acc)) =
  Persisted.Normal
    (map Some (fold_left (fun a x => place InMemory.compareFn x a) l acc)).
Proof.
  revert acc. induction l as [| x l IH]; intro acc; [reflexivity |].
  cbn [map fold_left Persisted.bind].
  rewrite placeArray_entries. apply IH.
Qed.

(** On score entries the sort is the sort of the first variant. *)
Lemma sortArray_entries (l : list ScoreEntry) :
  Persisted.sortArray (map Some l) =
  Persisted.Normal (map Some (sort InMemory.compareFn l)).
Proof. exact (sortArray_from l []). Qed.

Lemma sortArray_thrown (l : list (option ScoreEntry)) :
  fold_left (fun a x => Persisted.bind a (Persisted.placeArray x)) l
    Persisted.Throw = Persisted.Throw.
Proof. induction l as [| x l IH]; [reflexivity | exact IH]. Qed.

Lemma sortArray_null_later (l : list (option ScoreEntry)) :
  forall acc : list ScoreEntry,
    acc <> [] -> In None l ->
    fold_left (fun a x => Persisted.bind a (Persisted.placeArray x)) l
      (Persisted.Normal (map Some acc)) = Persisted.Throw.
Proof.
  induction l as [| x l IH]; intros acc Hacc Hin; [contradiction |].
  cbn [fold_left Persisted.bind].
  destruct x as [x |].
  - rewrite placeArray_entries. apply IH.
    + intro H. pose proof (place_length InMemory.compareFn x acc) as Hl.
      rewrite H in Hl. discriminate.
    + destruct Hin as [H | H]; [discriminate | exact H].
  - destruct acc as [| y t]; [contradiction |].
    cbn. apply sortArray_thrown.
Qed.

(** An array of two or more elements with a [null] among them makes the
    comparator throw. *)
Lemma sortArray_null (before : list ScoreEntry)
    (behind : list (option ScoreEntry)) (e : ScoreEntry) :
  Persisted.sortArray ((map Some before ++ None :: behind) ++ [Some e]) =
  Persisted.Throw.
Proof.
  unfold Persisted.sortArray.
  destruct before as [| b0 before'].
  - cbn [map app fold_left Persisted.bind Persisted.placeArray].
    destruct (behind ++ [Some e]) as [| x rest] eqn:E.
    + destruct behind; discriminate.
    + cbn [fold_left Persisted.bind Persisted.placeArray
           Persisted.compareElements].
      destruct x; apply sortArray_thrown.
  - cbn [map app fold_left Persisted.bind Persisted.placeArray].
    apply (sortArray_null_later _ [b0]); [discriminate |].
    rewrite <- app_assoc. apply in_or_app. right. left. reflexivity.
Qed.

(** What [saveScore] does once it has read an array of score entries. *)
Lemma persisted_save_tail top w (l : list ScoreEntry) e s :
  let kept := slice0 top (sort InMemory.compareFn (l ++ [e])) in
  Persisted.tryCatch
    (Persisted.bind (Persisted.sortArray (map Some l ++ [Some e]))
       (fun sorted =>
          Persisted.bind
            (Persisted.setItem (Persisted.mkBackend false w)
               (Persisted.stringifyArray (slice0 top sorted)) s)
            (fun s1 =>
               Persisted.Normal
                 (Persisted.tryCatch
                    (Persisted.renderArray (slice0 top sorted) s1) s1))))
    s =
  if w then s
  else Persisted.mkState (Some (Persisted.JSON_stringify kept)) (boardOf kept).
Proof.
  intro kept.
  change (map Some l ++ [Some e]) with (map Some l ++ map Some [e]).
  rewrite <- map_app, sortArray_entries.
  cbn [Persisted.bind]. unfold slice0. rewrite !firstn_map.
  change (firstn top (sort InMemory.compareFn (l ++ [e]))) with kept.
  unfold Persisted.stringifyArray, Persisted.renderArray, Persisted.setItem.
  rewrite parsedArray_map_Some, entries_map_Some.
  cbn [Persisted.setItemThrows].
  destruct w; [reflexivity |].
  cbn [Persisted.bind Persisted.tryCatch].
  unfold Persisted.renderScoreBoard, boardOf, Persisted.JSON_stringify.
  destruct kept; reflexivity.
Qed.

(** The persisted [saveScore] either changes nothing (some step threw) or
    stores and shows the pushed, sorted and cut array. *)
Lemma persisted_saveScoreTop_cases top io c t ts now s :
  let s' := Persisted.saveScoreTop top io c t ts now s in
  (s' = s /\
   (Persisted.getItemThrows io = true \/ readScores s = None \/
    Persisted.setItemThrows io = true)) \/
  (exists scores,
      Persisted.getItemThrows io = false /\
      Persisted.setItemThrows io = false /\
      readScores s = Some scores /\
      let kept := pushSortCut top scores (mkScore c t (numberOrNull ts) now) in
      s' = Persisted.mkState (Some (Persisted.JSON_stringify kept))
             (boardOf kept)).
Proof.
  cbv zeta. unfold Persisted.saveScoreTop, pushSortCut, readScores.
  destruct io as [g w].
  set (e := mkScore c t (numberOrNull ts) now).
  destruct g.
  { left. split; [reflexivity | left; reflexivity]. }
  assert (Hok : forall l,
             Persisted.tryCatch
               (Persisted.bind (Persisted.sortArray (map Some l ++ [Some e]))
                  (fun sorted =>
                     Persisted.bind
                       (Persisted.setItem (Persisted.mkBackend false w)
                          (Persisted.stringifyArray (slice0 top sorted)) s)
                       (fun s1 =>
                          Persisted.Normal
                            (Persisted.tryCatch
                               (Persisted.renderArray (slice0 top sorted) s1)
                               s1))))
               s = s /\ w = true \/
             w = false /\
             Persisted.tryCatch
               (Persisted.bind (Persisted.sortArray (map Some l ++ [Some e]))
                  (fun sorted =>
                     Persisted.bind
                       (Persisted.setItem (Persisted.mkBackend false w)
                          (Persisted.stringifyArray (slice0 top sorted)) s)
                       (fun s1 =>
                          Persisted.Normal
                            (Persisted.tryCatch
                               (Persisted.renderArray (slice0 top sorted) s1)
                               s1))))
               s =
             Persisted.mkState
               (Some (Persisted.JSON_stringify
                        (slice0 top (sort InMemory.compareFn (l ++ [e])))))
               (boardOf (slice0 top (sort InMemory.compareFn (l ++ [e]))))).
  { intro l. pose proof (persisted_save_tail top w l e s) as H.
    cbv zeta in H. rewrite H. destruct w; [left | right]; auto. }
  destruct s as [it board].
  cbn [Persisted.getItem Persisted.getItemThrows Persisted.bind
       Persisted.item].
  destruct it as [[| | [| scores | before behind]] |];
    cbn [Persisted.JSON_parse Persisted.bind Persisted.arrayOf app].
  - (* empty text *)
    destruct (Hok []) as [[H Hw] | [Hw H]]; cbn [map app] in H; rewrite H.
    + left. split; [reflexivity | right; right; exact Hw].
    + right. exists []. repeat split. exact Hw.
  - (* not JSON *)
    left. split; [reflexivity | right; left; reflexivity].
  - (* not an array *)
    destruct (Hok []) as [[H Hw] | [Hw H]]; cbn [map app] in H; rewrite H.
    + left. split; [reflexivity | right; right; exact Hw].
    + right. exists []. repeat split. exact Hw.
  - (* an array of score entries *)
    destruct (Hok scores) as [[H Hw] | [Hw H]]; rewrite H.
    + left. split; [reflexivity | right; right; exact Hw].
    + right. exists scores. repeat split. exact Hw.
  - (* an array with null *)
    rewrite sortArray_null.
    left. split; [reflexivity | right; left; reflexivity].
  - (* no item *)
    destruct (Hok []) as [[H Hw] | [Hw H]]; cbn [map app] in H; rewrite H.
    + left. split; [reflexivity | right; right; exact Hw].
    + right. exists []. repeat split. exact Hw.
Qed.

Lemma pushSortCut_ranked top scores e :
  Ranked InMemory.compareFn (pushSortCut top scores e).
Proof.
  apply ranked_slice0, (sort_ranked _ compareFn_consistent).
Qed.

Lemma pushSortCut_length top scores e :
  List.length (pushSortCut top scores e) = Nat.min top (S (List.length scores)).
Proof.
  unfold pushSortCut, slice0.
  rewrite length_firstn, sort_length, length_app. simpl. f_equal. lia.
Qed.

(** * Properties of the score board *)

(** C1.  The ranking [saveScore] sorts by is a total order with ties (a
    total preorder): the comparator of either variant is consistent, any two
    entries are comparable, more correct answers rank first, at equal
    [correct] the smaller time ranks first, an entry without time ranks
    strictly after every timed one, and two entries without time tie.
    [saveScore] leaves the first entries of the pushed array sorted by it,
    ties in insertion order, and no other arrangement of the array is both
    ranked and in insertion order on ties.  Recording 3/10 s, 5/20 s and
    5/15 s gives 5/15, 5/20, 3/10 in both variants. *)
Theorem ranking_total_order :
  (Consistent InMemory.compareFn /\ RanksScores InMemory.compareFn) /\
  (Consistent Persisted.compareFn /\ RanksScores Persisted.compareFn) /\
  (forall a b,
      notAfter InMemory.compareFn a b \/ notAfter InMemory.compareFn b a) /\
  (forall l l',
      Ranked InMemory.compareFn l' ->
      KeepsTiesInOrder InMemory.compareFn l l' ->
      l' = sort InMemory.compareFn l) /\
  (forall top c t ts now s,
      let pushed :=
        InMemory.highScores s ++ [mkScore c t (numberOrNull ts) now] in
      let ranked := sort InMemory.compareFn pushed in
      Ranked InMemory.compareFn ranked /\
      KeepsTiesInOrder InMemory.compareFn pushed ranked /\
      InMemory.highScores (InMemory.saveScoreTop top c t ts now s) =
      slice0 top ranked) /\
  (forall top c t ts now scores board,
      let pushed := scores ++ [mkScore c t (numberOrNull ts) now] in
      let ranked := sort Persisted.compareFn pushed in
      Ranked Persisted.compareFn ranked /\
      KeepsTiesInOrder Persisted.compareFn pushed ranked /\
      Persisted.leaderboard
        (Persisted.saveScoreTop top Persisted.healthy c t ts now
           (Persisted.mkState (Some (Persisted.JSON_stringify scores)) board)) =
      slice0 top ranked) /\
  (forall n t1 t2 t3,
      InMemory.highScores
        (InMemory.saveScore 5 n (Some 15) t3
           (InMemory.saveScore 5 n (Some 20) t2
              (InMemory.saveScore 3 n (Some 10) t1 InMemory.initial))) =
      [mkScore 5 n (Some 15) t3; mkScore 5 n (Some 20) t2;
       mkScore 3 n (Some 10) t1]) /\
  (forall n t1 t2 t3,
      Persisted.leaderboard
        (Persisted.saveScore Persisted.healthy 5 n (Some 15) t3
           (Persisted.saveScore Persisted.healthy 5 n (Some 20) t2
              (Persisted.saveScore Persisted.healthy 3 n (Some 10) t1
                 emptyStore))) =
      [mkScore 5 n (Some 15) t3; mkScore 5 n (Some 20) t2;
       mkScore 3 n (Some 10) t1]).
Proof.
  split; [split; [exact compareFn_consistent | exact compareFn_ranks] |].
  split; [split; [exact compareFn_consistent | exact compareFn_ranks] |].
  split; [exact (notAfter_total _ compareFn_consistent) |].
  split; [| split; [| split; [| split]]].
  - intros l l' Hr Hk.
    apply (stable_sort_unique _ compareFn_consistent);
      [apply (sort_ranked _ compareFn_consistent) | exact Hr |].
    intro x. rewrite (Hk x).
    symmetry. apply (sort_stable _ compareFn_consistent).
  - intros top c t ts now s pushed ranked. split; [| split].
    + apply (sort_ranked _ compareFn_consistent).
    + apply (sort_stable _ compareFn_consistent).
    + apply inMemory_saveScoreTop_highScores.
  - intros top c t ts now scores board pushed ranked. split; [| split].
    + apply (sort_ranked _ compareFn_consistent).
    + apply (sort_stable _ compareFn_consistent).
    + destruct (persisted_saveScoreTop_cases top Persisted.healthy c t ts now
                  (Persisted.mkState
                     (Some (Persisted.JSON_stringify scores)) board))
        as [[_ [H | [H | H]]] | [scores' (_ & _ & Hread & Hs')]];
        try discriminate.
      cbv zeta in Hs'. rewrite Hs'.
      injection Hread as <-. reflexivity.
  - intros. reflexivity.
  - intros. reflexivity.
Qed.

Lemma ranking_total_order_witness :
  InMemory.compareFn (mkScore 5 5 (Some 999) 1) (mkScore 5 5 None 2) < 0 /\
  (InMemory.compareFn (mkScore 5 5 (Some 15) 3) (mkScore 5 5 (Some 20) 2) < 0
   <-> 15 < 20) /\
  InMemory.compareFn (mkScore 4 5 None 6) (mkScore 4 5 None 8) == 0.
Proof.
  destruct ranking_total_order as [[_ (_ & Htime & Huntimed & Hnone)] _].
  split; [| split].
  - apply (Huntimed (mkScore 5 5 (Some 999) 1) (mkScore 5 5 None 2) 999);
      reflexivity.
  - apply (Htime (mkScore 5 5 (Some 15) 3) (mkScore 5 5 (Some 20) 2) 15 20);
      reflexivity.
  - apply (Hnone (mkScore 4 5 None 6) (mkScore 4 5 None 8)); reflexivity.
Defined.

Lemma persisted_healthy_step top s l r :
  Holds s l ->
  Holds (recordPersisted top s (Persisted.healthy, r))
    (pushSortCut top l (entryOf r)).
Proof.
  intros [Hread _]. unfold recordPersisted.
  destruct (persisted_saveScoreTop_cases top Persisted.healthy
              (rCorrect r) (rTotal r) (rTime r) (rNow r) s)
    as [[_ [H | [H | H]]] | [scores (_ & _ & Hread' & Hs')]];
    try discriminate; try congruence.
  cbv zeta in Hs'. rewrite Hs'.
  assert (scores = l) by congruence. subst scores.
  split; reflexivity.
Qed.

Lemma persisted_healthy_run top rs s l :
  Holds s l ->
  Holds (fold_left (recordPersisted top) (map (pair Persisted.healthy) rs) s)
    (fold_left (pushSortCut top) (map entryOf rs) l).
Proof.
  revert s l. induction rs as [| r rs IH]; intros s l H; simpl; [exact H |].
  apply IH, persisted_healthy_step, H.
Qed.

Lemma emptyStore_holds : Holds emptyStore [].
Proof. split; reflexivity. Qed.

(** Recording one entry after another and cutting each time keeps the
    first [top] of all entries in ranking order. *)
Lemma pushSortCut_run top es :
  fold_left (pushSortCut top) es [] =
  slice0 top (sort InMemory.compareFn es).
Proof.
  pose proof (slice0_sort_run _ compareFn_consistent top es []) as H.
  unfold slice0 in H at 2. cbn [sort fold_left] in H.
  rewrite firstn_nil in H. exact H.
Qed.

Lemma persisted_step_ranked top io c t ts now s :
  let s' := Persisted.saveScoreTop top io c t ts now s in
  s' = s \/ StoredRanked top s'.
Proof.
  destruct (persisted_saveScoreTop_cases top io c t ts now s)
    as [[H _] | [scores (_ & _ & _ & Hs')]]; [left; exact H | right].
  cbv zeta in *. rewrite Hs'. unfold StoredRanked. cbn.
  split.
  - rewrite pushSortCut_length. lia.
  - apply pushSortCut_ranked.
Qed.

Lemma persisted_run_ranked top calls s :
  StoredRanked top s ->
  StoredRanked top (fold_left (recordPersisted top) calls s).
Proof.
  revert s. induction calls as [| [io r] calls IH]; intros s H; [exact H |].
  simpl. apply IH.
  destruct (persisted_step_ranked top io (rCorrect r) (rTotal r) (rTime r)
              (rNow r) s) as [Heq | Hok].
  - cbv zeta in Heq. rewrite Heq. exact H.
  - exact Hok.
Qed.

(** C3.  After every [saveScore] the leaderboard holds at most its capacity
    (5 in memory, 10 in the store) and is in ranking order: in memory from
    any state; in the store after any history of calls from the empty store,
    whatever the backend did at each call, and after any single call that
    changed the store.  Recording a sequence of entries leaves the first
    [top] of all of them in ranking order, so [top + 3] recordings leave
    exactly [top] entries, the best ones. *)
Theorem leaderboard_bounded_ranked :
  (forall c t ts now s,
      let s' := InMemory.saveScore c t ts now s in
      (List.length (InMemory.highScores s') <= 5)%nat /\
      Ranked InMemory.compareFn (InMemory.highScores s')) /\
  (forall calls,
      let s' := fold_left (recordPersisted 10) calls emptyStore in
      (List.length (Persisted.leaderboard s') <= 10)%nat /\
      Ranked Persisted.compareFn (Persisted.leaderboard s')) /\
  (forall io c t ts now s,
      let s' := Persisted.saveScore io c t ts now s in
      s' = s \/
      ((List.length (Persisted.leaderboard s') <= 10)%nat /\
       Ranked Persisted.compareFn (Persisted.leaderboard s'))) /\
  (forall top rs,
      let kept :=
        InMemory.highScores
          (fold_left (recordInMemory top) rs InMemory.initial) in
      kept = slice0 top (sort InMemory.compareFn (map entryOf rs)) /\
      (List.length rs = (top + 3)%nat -> List.length kept = top)) /\
  (forall top rs,
      let kept :=
        Persisted.leaderboard
          (fold_left (recordPersisted top) (map (pair Persisted.healthy) rs)
             emptyStore) in
      kept = slice0 top (sort Persisted.compareFn (map entryOf rs)) /\
      (List.length rs = (top + 3)%nat -> List.length kept = top)).
Proof.
  split; [| split; [| split; [| split]]].
  - intros c t ts now s s'. subst s'. unfold InMemory.saveScore.
    rewrite inMemory_saveScoreTop_highScores. split.
    + rewrite pushSortCut_length. lia.
    + apply pushSortCut_ranked.
  - intros calls. apply (persisted_run_ranked 10 calls emptyStore).
    split; [cbn; lia | constructor].
  - intros io c t ts now s. apply persisted_step_ranked.
  - intros top rs kept.
    assert (Hk : kept = slice0 top (sort InMemory.compareFn (map entryOf rs))).
    { subst kept. rewrite inMemory_run_highScores. apply pushSortCut_run. }
    split; [exact Hk |].
    intro Hlen. rewrite Hk. unfold slice0.
    rewrite length_firstn, sort_length, length_map. lia.
  - intros top rs kept.
    assert (Hk : kept = slice0 top (sort InMemory.compareFn (map entryOf rs))).
    { subst kept.
      destruct (persisted_healthy_run top rs _ _ emptyStore_holds) as [_ H].
      rewrite H. apply pushSortCut_run. }
    split; [exact Hk |].
    intro Hlen. rewrite Hk. unfold slice0.
    rewrite length_firstn, sort_length, length_map. lia.
Qed.

Lemma leaderboard_bounded_ranked_witness :
  List.length
    (InMemory.highScores
       (fold_left (recordInMemory 5) eightRecordings InMemory.initial)) = 5%nat
  /\
  List.length
    (Persisted.leaderboard
       (fold_left (recordPersisted 10)
          (map (pair Persisted.healthy)
             (eightRecordings ++ firstn 5 eightRecordings))
          emptyStore)) = 10%nat.
Proof.
  split.
  - apply (proj2 (proj1 (proj2 (proj2 (proj2 leaderboard_bounded_ranked)))
                    5%nat eightRecordings)).
    reflexivity.
  - apply (proj2 (proj2 (proj2 (proj2 (proj2 leaderboard_bounded_ranked)))
                    10%nat _)).
    reflexivity.
Defined.

(** C9.  Both variants record alike.  For every capacity and every sequence
    of recordings, the store of the persisted variant (backend working)
    ends up holding the very array the in-memory variant holds, whether they
    start empty or from the same array; the comparators are the same
    function; with the capacities the source fixes, 10 and 5, the in-memory
    array is the first five entries of the stored one. *)
Theorem variants_record_alike :
  (forall top rs,
      Persisted.leaderboard
        (fold_left (recordPersisted top) (map (pair Persisted.healthy) rs)
           emptyStore) =
      InMemory.highScores
        (fold_left (recordInMemory top) rs InMemory.initial)) /\
  (forall top rs scores board,
      Persisted.leaderboard
        (fold_left (recordPersisted top) (map (pair Persisted.healthy) rs)
           (Persisted.mkState (Some (Persisted.JSON_stringify scores))
              board)) =
      InMemory.highScores
        (fold_left (recordInMemory top) rs
           (InMemory.set_highScores scores InMemory.initial))) /\
  (forall a b, Persisted.compareFn a b = InMemory.compareFn a b) /\
  (forall rs,
      slice0 5
        (Persisted.leaderboard
           (fold_left (recordPersisted 10) (map (pair Persisted.healthy) rs)
              emptyStore)) =
      InMemory.highScores
        (fold_left (recordInMemory 5) rs InMemory.initial)).
Proof.
  assert (HP : forall top rs,
             Persisted.leaderboard
               (fold_left (recordPersisted top)
                  (map (pair Persisted.healthy) rs) emptyStore) =
             slice0 top (sort InMemory.compareFn (map entryOf rs))).
  { intros top rs.
    destruct (persisted_healthy_run top rs _ _ emptyStore_holds) as [_ H].
    rewrite H. apply pushSortCut_run. }
  assert (HM : forall top rs,
             InMemory.highScores
               (fold_left (recordInMemory top) rs InMemory.initial) =
             slice0 top (sort InMemory.compareFn (map entryOf rs))).
  { intros top rs. rewrite inMemory_run_highScores. apply pushSortCut_run. }
  split; [| split; [| split]].
  - intros top rs. rewrite HP, HM. reflexivity.
  - intros top rs scores board.
    assert (Hh : Holds (Persisted.mkState
                          (Some (Persisted.JSON_stringify scores)) board)
                   scores) by (split; reflexivity).
    destruct (persisted_healthy_run top rs _ _ Hh) as [_ H].
    rewrite H, inMemory_run_highScores. reflexivity.
  - exact compareFn_same.
  - intro rs. rewrite HP, HM. unfold slice0.
    rewrite firstn_firstn. reflexivity.
Qed.

(** C10.  In the persisted variant, when the write to storage throws,
    [saveScore] swallows the exception and changes nothing: the stored value
    and the board are as before, and the new entry is nowhere. *)
Theorem failed_write_changes_nothing io c t ts now s :
  Persisted.setItemThrows io = true ->
  Persisted.saveScore io c t ts now s = s.
Proof.
  intro Hw. unfold Persisted.saveScore.
  destruct (persisted_saveScoreTop_cases 10 io c t ts now s)
    as [[H _] | [scores (_ & Hw' & _)]]; [exact H | congruence].
Qed.

Lemma failed_write_changes_nothing_witness :
  let full :=
    Persisted.mkState
      (Some (Persisted.JSON_stringify [mkScore 5 5 (Some 15) 3]))
      (BoardRows [mkScore 5 5 (Some 15) 3]) in
  Persisted.saveScore (Persisted.mkBackend false true) 4 5 (Some 12) 9 full
  = full.
Proof.
  intro full.
  apply (failed_write_changes_nothing (Persisted.mkBackend false true)
           4 5 (Some 12) 9 full).
  reflexivity.
Defined.

(** C8, as stated, fails: when the read throws, or the stored text is not
    JSON, the board shows "High Scores: Unavailable", which is neither the
    "none yet" text nor what the same function shows for a store without
    scores; and a score saved over text that is not JSON is not recorded on
    an empty leaderboard, the store stays as it was. *)
Lemma failed_read_shows_unavailable :
  Persisted.highScoreEl
    (Persisted.loadScoresFromStorage (Persisted.mkBackend true false)
       emptyStore) = BoardText "High Scores: Unavailable" /\
  Persisted.highScoreEl
    (Persisted.loadScoresFromStorage (Persisted.mkBackend true false)
       emptyStore) <> BoardText "High Scores: none yet" /\
  Persisted.highScoreEl
    (Persisted.loadScoresFromStorage (Persisted.mkBackend true false)
       emptyStore) <>
  Persisted.highScoreEl
    (Persisted.loadScoresFromStorage Persisted.healthy emptyStore) /\
  Persisted.highScoreEl
    (Persisted.loadScoresFromStorage Persisted.healthy
       (Persisted.mkState (Some Persisted.NotJson) (BoardText ""))) =
  BoardText "High Scores: Unavailable" /\
  Persisted.saveScore Persisted.healthy 3 5 (Some 10) 1
    (Persisted.mkState (Some Persisted.NotJson) (BoardText "")) =
  Persisted.mkState (Some Persisted.NotJson) (BoardText "").
Proof.
  repeat split; try reflexivity; cbn; discriminate.
Qed.

(** C8, amended.  Storage failures stay inside the two operations, which
    always return a state.  [loadScoresFromStorage] never writes the store;
    it shows "High Scores: Unavailable" when the read throws, when the
    stored text is not JSON, and when the stored array holds a [null]
    (drawing its row throws); it shows "High Scores: N/A" when nothing, an
    empty text, a non-array or an empty array is stored, and the rows of a
    non-empty array of score entries.  [saveScore] changes nothing when the
    read throws, the stored text is not JSON, the stored array holds a
    [null] (the comparator throws) or the write throws; over a stored
    non-array it records as over an empty leaderboard. *)
Theorem storage_failures_contained :
  (forall io s,
      Persisted.item (Persisted.loadScoresFromStorage io s) =
      Persisted.item s) /\
  (forall w s,
      Persisted.highScoreEl
        (Persisted.loadScoresFromStorage (Persisted.mkBackend true w) s) =
      BoardText "High Scores: Unavailable") /\
  (forall w board,
      Persisted.highScoreEl
        (Persisted.loadScoresFromStorage (Persisted.mkBackend false w)
           (Persisted.mkState (Some Persisted.NotJson) board)) =
      BoardText "High Scores: Unavailable") /\
  (forall w board before behind,
      Persisted.highScoreEl
        (Persisted.loadScoresFromStorage (Persisted.mkBackend false w)
           (Persisted.mkState
              (Some (Persisted.JsonOf (Persisted.NullInArray before behind)))
              board)) =
      BoardText "High Scores: Unavailable") /\
  (forall w board it,
      In it [None; Some Persisted.EmptyText;
             Some (Persisted.JsonOf Persisted.NotAnArray);
             Some (Persisted.JsonOf (Persisted.AnArray []))] ->
      Persisted.highScoreEl
        (Persisted.loadScoresFromStorage (Persisted.mkBackend false w)
           (Persisted.mkState it board)) =
      BoardText "High Scores: N/A") /\
  (forall w board e scores,
      Persisted.highScoreEl
        (Persisted.loadScoresFromStorage (Persisted.mkBackend false w)
           (Persisted.mkState
              (Some (Persisted.JsonOf (Persisted.AnArray (e :: scores))))
              board)) =
      BoardRows (e :: scores)) /\
  (forall top io c t ts now s,
      Persisted.getItemThrows io = true \/
      Persisted.item s = Some Persisted.NotJson \/
      (exists before behind,
          Persisted.item s =
          Some (Persisted.JsonOf (Persisted.NullInArray before behind))) \/
      Persisted.setItemThrows io = true ->
      Persisted.saveScoreTop top io c t ts now s = s) /\
  (forall top c t ts now board,
      Persisted.leaderboard
        (Persisted.saveScoreTop top Persisted.healthy c t ts now
           (Persisted.mkState
              (Some (Persisted.JsonOf Persisted.NotAnArray)) board)) =
      slice0 top
        (sort Persisted.compareFn [mkScore c t (numberOrNull ts) now])).
Proof.
  assert (Hnull : forall before behind,
             Persisted.entries (map Some before ++ None :: behind) = None).
  { intros before behind. induction before as [| b before IH];
      [reflexivity |].
    cbn. rewrite IH. reflexivity. }
  assert (Hcons : forall (before : list ScoreEntry)
                         (behind : list (option ScoreEntry)),
             exists x rest, map Some before ++ None :: behind = x :: rest).
  { intros [| b before] behind; cbn; eauto. }
  split; [| split; [| split; [| split; [| split; [| split; [| split]]]]]].
  - intros [g w] [it board]. unfold Persisted.loadScoresFromStorage.
    destruct g; [reflexivity |].
    destruct it as [[| | [| [| e l] | before behind]] |]; try reflexivity.
    + cbn. unfold Persisted.renderArray.
      change (Some e :: map Some l) with (map Some (e :: l)).
      rewrite entries_map_Some. reflexivity.
    + cbn [Persisted.getItem Persisted.getItemThrows Persisted.bind
           Persisted.item Persisted.JSON_parse Persisted.arrayOf].
      destruct (Hcons before behind) as (x & rest & Hx).
      unfold Persisted.renderArray. rewrite (Hnull before behind), Hx.
      reflexivity.
  - intros w s. reflexivity.
  - intros w board. reflexivity.
  - intros w board before behind. unfold Persisted.loadScoresFromStorage.
    cbn [Persisted.getItem Persisted.getItemThrows Persisted.bind
         Persisted.item Persisted.JSON_parse Persisted.arrayOf].
    destruct (Hcons before behind) as (x & rest & Hx).
    unfold Persisted.renderArray. rewrite (Hnull before behind), Hx.
    reflexivity.
  - intros w board it Hin. simpl in Hin.
    destruct Hin as [<- | [<- | [<- | [<- | []]]]]; reflexivity.
  - intros w board e scores. unfold Persisted.loadScoresFromStorage.
    cbn [Persisted.getItem Persisted.getItemThrows Persisted.bind
         Persisted.item Persisted.JSON_parse Persisted.arrayOf map].
    unfold Persisted.renderArray.
    change (Some e :: map Some scores) with (map Some (e :: scores)).
    rewrite entries_map_Some. reflexivity.
  - intros top io c t ts now s Hfail.
    destruct (persisted_saveScoreTop_cases top io c t ts now s)
      as [[H _] | [scores (Hg & Hw & Hread & _)]]; [exact H |].
    destruct Hfail as [Hf | [Hf | [(before & behind & Hf) | Hf]]];
      try congruence;
      unfold readScores in Hread; rewrite Hf in Hread; discriminate.
  - intros top c t ts now board.
    destruct (persisted_saveScoreTop_cases top Persisted.healthy c t ts now
                (Persisted.mkState
                   (Some (Persisted.JsonOf Persisted.NotAnArray)) board))
      as [[_ [H | [H | H]]] | [scores (_ & _ & Hread & Hs')]];
      try discriminate.
    cbv zeta in Hs'. rewrite Hs'. injection Hread as <-. reflexivity.
Qed.

Lemma storage_failures_contained_witness :
  Persisted.highScoreEl
    (Persisted.loadScoresFromStorage Persisted.healthy
       (Persisted.mkState (Some (Persisted.JsonOf Persisted.NotAnArray))
          (BoardText ""))) = BoardText "High Scores: N/A" /\
  Persisted.saveScoreTop 10 Persisted.healthy 3 5 (Some 10) 1
    (Persisted.mkState
       (Some (Persisted.JsonOf (Persisted.NullInArray [] []))) (BoardText ""))
  = Persisted.mkState
      (Some (Persisted.JsonOf (Persisted.NullInArray [] []))) (BoardText "").
Proof.
  split.
  - apply (proj1 (proj2 (proj2 (proj2 (proj2 storage_failures_contained))))
             false (BoardText "")).
    simpl. right; right; left; reflexivity.
  - apply (proj1 (proj2 (proj2 (proj2 (proj2 (proj2
             (proj2 storage_failures_contained))))))
             10%nat Persisted.healthy).
    right; right; left. exists [], []. reflexivity.
Defined.

(** * The round state machine *)

Lemma lookup_in_range {A : Type} (arr : list A) (i : Z) :
  (0 <= i < len arr)%Z -> exists x, lookup arr i = Some x.
Proof.
  intros [Hlo Hhi]. unfold lookup, len in *.
  destruct (Z.ltb_spec i 0); [lia |].
  destruct (nth_error arr (Z.to_nat i)) as [x |] eqn:E; [eauto |].
  apply nth_error_None in E. lia.
Qed.

Lemma stopTimer_core now s :
  core (snd (InMemory.stopTimer now s)) = core s.
Proof.
  unfold InMemory.stopTimer.
  destruct (falsyNum (InMemory.startTime s)); [reflexivity |].
  destruct (InMemory.timerInterval s); reflexivity.
Qed.

Lemma saveScoreTop_core top c t ts now s :
  core (InMemory.saveScoreTop top c t ts now s) = core s.
Proof.
  unfold InMemory.saveScoreTop, InMemory.renderScoreBoard.
  destruct (slice0 _ _); reflexivity.
Qed.

Lemma endGame_core now date s :
  core (InMemory.endGame now date s) =
  (InMemory.currentIndex s, InMemory.correctCount s, false,
   InMemory.uncaught s).
Proof.
  unfold InMemory.endGame.
  pose proof (stopTimer_core now
                (InMemory.set_startBtnDisabled false
                   (InMemory.set_guessingEnabled false s))) as Hst.
  destruct (InMemory.stopTimer now _) as [totalTime s2]. simpl snd in Hst.
  pose proof (saveScoreTop_core 5 (InMemory.correctCount s2) (len LOCATIONS)
                totalTime date s2) as Hsv.
  unfold InMemory.saveScore.
  unfold core in *. cbn in *.
  congruence.
Qed.

Lemma startTimer_core now s : core (InMemory.startTimer now s) = core s.
Proof.
  unfold InMemory.startTimer.
  destruct (InMemory.timerInterval s); reflexivity.
Qed.

Lemma updateTimerDisplay_core now s :
  core (InMemory.updateTimerDisplay now s) = core s.
Proof.
  unfold InMemory.updateTimerDisplay.
  destruct (falsyNum (InMemory.startTime s)); reflexivity.
Qed.

Lemma Inv_core s s' : core s' = core s -> Inv s -> Inv s'.
Proof.
  unfold core, Inv. intros H. injection H as -> -> -> ->. tauto.
Qed.

Lemma endGame_Inv now date s : Inv s -> Inv (InMemory.endGame now date s).
Proof.
  pose proof (endGame_core now date s) as H.
  unfold core, Inv in *. injection H as -> -> -> ->.
  intuition discriminate.
Qed.

Lemma startRound_Inv now date s :
  Inv s -> Inv (InMemory.startRound now date s).
Proof.
  intro H. unfold InMemory.startRound.
  destruct (Z.geb_spec (InMemory.currentIndex s) (len LOCATIONS)) as [Hge | Hlt].
  - apply endGame_Inv, H.
  - destruct H as (Hcc & Hle & _ & Hun).
    destruct (lookup_in_range LOCATIONS (InMemory.currentIndex s))
      as [loc Hloc]; [lia |].
    cbn. rewrite Hloc. unfold Inv; cbn. intuition.
Qed.

Lemma startGame_Inv now date s :
  Inv s -> Inv (InMemory.startGame now date s).
Proof.
  intros (_ & _ & _ & Hun). unfold InMemory.startGame.
  apply startRound_Inv.
  eapply Inv_core; [apply startTimer_core |].
  unfold Inv; cbn. pose proof (Nat2Z.is_nonneg (List.length LOCATIONS)).
  unfold len. intuition; try lia; discriminate.
Qed.

Section RoundFacts.

Variable dist : LatLng -> LatLng -> Q.

(** [handleGuess] on a catalogue entry, field by field. *)
Lemma handleGuess_fields latLng s loc :
  lookup LOCATIONS (InMemory.currentIndex s) = Some loc ->
  let s' := InMemory.handleGuess dist latLng s in
  let isCorrect :=
    Qle_bool (dist latLng (position loc)) CORRECT_DISTANCE_METERS in
  InMemory.currentIndex s' = (InMemory.currentIndex s + 1)%Z /\
  InMemory.correctCount s' =
    (if isCorrect then InMemory.correctCount s + 1
     else InMemory.correctCount s)%Z /\
  InMemory.guessingEnabled s' = false /\
  InMemory.uncaught s' = InMemory.uncaught s /\
  InMemory.evaluated s' =
    InMemory.evaluated s ++ [(latLng, position loc)] /\
  InMemory.statusEl s' =
    (if isCorrect then "Correct!"
     else "Incorrect. The correct area is highlighted in red.")%string /\
  InMemory.timeouts s' =
    InMemory.timeouts s ++
    [if (InMemory.currentIndex s + 1 <? len LOCATIONS)%Z
     then InMemory.CbStartRound else InMemory.CbEndGame] /\
  InMemory.startBtnDisabled s' = InMemory.startBtnDisabled s /\
  InMemory.highScores s' = InMemory.highScores s /\
  InMemory.startTime s' = InMemory.startTime s /\
  InMemory.timerInterval s' = InMemory.timerInterval s /\
  InMemory.intervals s' = InMemory.intervals s.
Proof.
  intro Hloc. unfold InMemory.handleGuess.
  cbn [InMemory.set_guessingEnabled InMemory.currentIndex].
  rewrite Hloc. cbv zeta.
  destruct (Qle_bool (dist latLng (position loc)) CORRECT_DISTANCE_METERS);
    cbn -[len LOCATIONS Z.add];
    destruct (InMemory.currentIndex s + 1 <? len LOCATIONS)%Z;
    cbn -[len LOCATIONS Z.add]; repeat split.
Qed.

Lemma handleGuess_Inv latLng s :
  Inv s -> InMemory.guessingEnabled s = true ->
  Inv (InMemory.handleGuess dist latLng s).
Proof.
  intros (Hcc & Hle & Hact & Hun) Hg. specialize (Hact Hg).
  destruct (lookup_in_range LOCATIONS (InMemory.currentIndex s))
    as [loc Hloc]; [lia |].
  destruct (handleGuess_fields latLng s loc Hloc)
    as (Hi & Hc & Hge & Hu & _).
  unfold Inv. rewrite Hi, Hc, Hge, Hu.
  destruct (Qle_bool _ _); repeat split; try lia; try discriminate; assumption.
Qed.

Lemma step_Inv s ev : Inv s -> Inv (InMemory.step dist s ev).
Proof.
  intro H. destruct ev as [now date | latLng | now date | now]; simpl.
  - destruct (InMemory.startBtnDisabled s); [exact H |].
    apply startGame_Inv, H.
  - unfold InMemory.onDblClick.
    destruct (InMemory.guessingEnabled s) eqn:Hg; [| exact H].
    apply handleGuess_Inv; assumption.
  - destruct (InMemory.timeouts s) as [| cb rest]; [exact H |].
    assert (Inv (InMemory.set_timeouts rest s)) by exact H.
    destruct cb; simpl; [apply startRound_Inv | apply endGame_Inv]; assumption.
  - destruct (InMemory.intervals s); [exact H |].
    eapply Inv_core; [apply updateTimerDisplay_core | exact H].
Qed.

Lemma initial_Inv : Inv InMemory.initial.
Proof. unfold Inv; cbn. intuition; try lia; discriminate. Qed.

Lemma run_Inv evs : Inv (InMemory.run dist evs).
Proof.
  unfold InMemory.run. generalize initial_Inv. generalize InMemory.initial.
  induction evs as [| ev evs IH]; intros s H; [exact H |].
  simpl. apply IH, step_Inv, H.
Qed.

End RoundFacts.

(** * Properties of the rounds and the timer *)

(** C6.  After any sequence of events from page load (starting a game,
    guesses, advances after the pacing delay, timer ticks),
    [0 <= currentIndex <= LOCATIONS.length] and
    [0 <= correctCount <= currentIndex]. *)
Theorem counters_in_range dist evs :
  let s := InMemory.run dist evs in
  (0 <= InMemory.currentIndex s <= len LOCATIONS)%Z /\
  (0 <= InMemory.correctCount s <= InMemory.currentIndex s)%Z.
Proof.
  destruct (run_Inv dist evs) as (Hcc & Hle & _ & _).
  cbv zeta. lia.
Qed.

(** C5.  While [guessingEnabled] is false a double click on the map is a
    no-op: the state is left exactly as it was, so no distance is evaluated,
    [currentIndex], [correctCount] and the status text are unchanged and no
    exception is raised.  Guessing is disabled on page load, from a guess
    until the next round opens, and once [endGame] has run. *)
Theorem disabled_guess_ignored :
  (forall dist latLng s,
      InMemory.guessingEnabled s = false ->
      let s' := InMemory.step dist s (InMemory.DblClick latLng) in
      s' = s /\
      InMemory.evaluated s' = InMemory.evaluated s /\
      InMemory.currentIndex s' = InMemory.currentIndex s /\
      InMemory.correctCount s' = InMemory.correctCount s /\
      InMemory.statusEl s' = InMemory.statusEl s /\
      InMemory.uncaught s' = InMemory.uncaught s) /\
  InMemory.guessingEnabled InMemory.initial = false /\
  (forall dist latLng s,
      InMemory.guessingEnabled
        (InMemory.step dist s (InMemory.DblClick latLng)) = false) /\
  (forall now date s,
      InMemory.guessingEnabled (InMemory.endGame now date s) = false).
Proof.
  split; [| split; [| split]].
  - intros dist latLng s Hg. cbn. unfold InMemory.onDblClick.
    rewrite Hg. cbn. repeat split.
  - reflexivity.
  - intros dist latLng s. cbn. unfold InMemory.onDblClick.
    destruct (InMemory.guessingEnabled s) eqn:Hg; [| exact Hg].
    cbn [negb].
    destruct (lookup LOCATIONS (InMemory.currentIndex s)) as [loc |] eqn:Hloc.
    + exact (proj1 (proj2 (proj2 (handleGuess_fields dist latLng s loc Hloc)))).
    + unfold InMemory.handleGuess.
      cbn [InMemory.set_guessingEnabled InMemory.currentIndex].
      rewrite Hloc. reflexivity.
  - intros now date s. pose proof (endGame_core now date s) as H.
    unfold core in H. congruence.
Qed.

Lemma disabled_guess_ignored_witness :
  InMemory.step (fun _ _ => 0) InMemory.initial
    (InMemory.DblClick (mkLatLng 34.2408534 (-118.5266263))) =
  InMemory.initial.
Proof.
  apply (proj1 disabled_guess_ignored (fun _ _ => 0)
           (mkLatLng 34.2408534 (-118.5266263)) InMemory.initial).
  reflexivity.
Defined.

(** C2.  In every state the page can reach with a round open, a double
    click is judged against the current target: the distance from the guess
    to [LOCATIONS[currentIndex].position] is evaluated, and [correctCount]
    goes up by one exactly when it is at most [CORRECT_DISTANCE_METERS],
    which is 50.  At exactly 50 the guess counts; at 50.0001, or anything
    above 50, it does not. *)
Theorem guess_correct_iff_within_threshold dist evs latLng :
  let s := InMemory.run dist evs in
  InMemory.guessingEnabled s = true ->
  exists loc,
    lookup LOCATIONS (InMemory.currentIndex s) = Some loc /\
    let d := dist latLng (position loc) in
    let s' := InMemory.step dist s (InMemory.DblClick latLng) in
    CORRECT_DISTANCE_METERS == 50 /\
    InMemory.evaluated s' = InMemory.evaluated s ++ [(latLng, position loc)] /\
    (InMemory.correctCount s' = (InMemory.correctCount s + 1)%Z <-> d <= 50) /\
    (InMemory.correctCount s' = InMemory.correctCount s <-> 50 < d) /\
    (InMemory.statusEl s' = "Correct!"%string <-> d <= 50) /\
    (d == 50 -> InMemory.correctCount s' = (InMemory.correctCount s + 1)%Z) /\
    (d == 50.0001 -> InMemory.correctCount s' = InMemory.correctCount s).
Proof.
  intros s Hg.
  destruct (run_Inv dist evs) as (Hcc & Hle & Hact & _). fold s in Hcc, Hle, Hact.
  destruct (lookup_in_range LOCATIONS (InMemory.currentIndex s))
    as [loc Hloc]; [specialize (Hact Hg); lia |].
  exists loc. split; [exact Hloc |].
  cbn [InMemory.step]. unfold InMemory.onDblClick. rewrite Hg. cbn [negb].
  destruct (handleGuess_fields dist latLng s loc Hloc)
    as (_ & Hc & _ & _ & He & Hst & _).
  cbv zeta in *. rewrite Hc, He, Hst.
  unfold CORRECT_DISTANCE_METERS in *.
  destruct (Qle_bool (dist latLng (position loc)) 50) eqn:E.
  - apply Qle_bool_iff in E.
    repeat split; intros; try reflexivity; try assumption; try lra; try lia.
  - assert (Hgt : 50 < dist latLng (position loc)).
    { destruct (Qlt_le_dec 50 (dist latLng (position loc))) as [H | H];
        [exact H |].
      apply Qle_bool_iff in H. congruence. }
    repeat split; intros; try reflexivity; try assumption; try lra; try lia;
      try discriminate.
Qed.

Lemma guess_correct_iff_within_threshold_witness :
  exists loc,
    lookup LOCATIONS
      (InMemory.currentIndex
         (InMemory.run (fun _ _ => 50) [InMemory.Click 1000 0])) = Some loc /\
    InMemory.correctCount
      (InMemory.step (fun _ _ => 50)
         (InMemory.run (fun _ _ => 50) [InMemory.Click 1000 0])
         (InMemory.DblClick (mkLatLng 34.24 (-118.52)))) = 1%Z.
Proof.
  destruct (guess_correct_iff_within_threshold (fun _ _ => 50)
              [InMemory.Click 1000 0] (mkLatLng 34.24 (-118.52)) eq_refl)
    as [loc [Hloc H]].
  exists loc. split; [exact Hloc |].
  cbv zeta in H.
  destruct H as (_ & _ & _ & _ & _ & Hat & _).
  apply Hat. reflexivity.
Defined.

(** C7.  [stopTimer] misses the timer that was started at clock reading 0:
    [!startTime] takes the start time 0 for "no timer", so the call returns
    [null], clears nothing, and the interval keeps ticking.  A game begun
    by a click at reading 0 therefore ends with the interval still live and
    a score without time, where the same game begun at reading 1000 stops
    the interval and records its seconds. *)
Theorem stopTimer_at_clock_zero :
  InMemory.timerInterval (InMemory.startTimer 0 InMemory.initial) =
    Some 1%positive /\
  InMemory.intervals (InMemory.startTimer 0 InMemory.initial) =
    [1%positive] /\
  InMemory.stopTimer 500 (InMemory.startTimer 0 InMemory.initial) =
    (None, InMemory.startTimer 0 InMemory.initial) /\
  fst (InMemory.stopTimer 500 (InMemory.startTimer 0 InMemory.initial)) <>
    Some (toDouble (toDouble (500 - 0) / 1000)) /\
  InMemory.intervals (InMemory.run metersInLat gameFromClockZero) =
    [1%positive] /\
  InMemory.highScores (InMemory.run metersInLat gameFromClockZero) =
    [mkScore 3 5 None 14000] /\
  InMemory.intervals (InMemory.run metersInLat fiveRounds) = [] /\
  InMemory.highScores (InMemory.run metersInLat fiveRounds) =
    [mkScore 3 5 (Some 14) 14000].
Proof.
  repeat split; try (vm_compute; reflexivity).
  vm_compute. discriminate.
Qed.

(** X16.  [stopTimer] with no timer started returns [null] and leaves the
    state alone; it has no failing step.  With a timer started at a
    non-zero clock reading [t0] it clears the interval, forgets the start,
    and returns the seconds from start to stop as the program computes
    them: the double [now - t0], divided by 1000 as doubles.  Stopping
    twice returns [null] the second time. *)
Theorem stopTimer_contract :
  (forall now s,
      InMemory.startTime s = None ->
      InMemory.stopTimer now s = (None, s)) /\
  (forall now s t0 h,
      InMemory.startTime s = Some t0 -> ~ t0 == 0 ->
      InMemory.timerInterval s = Some h ->
      let r := InMemory.stopTimer now s in
      fst r = Some (toDouble (toDouble (now - t0) / 1000)) /\
      InMemory.startTime (snd r) = None /\
      InMemory.timerInterval (snd r) = None /\
      ~ In h (InMemory.intervals (snd r)) /\
      core (snd r) = core s) /\
  (forall t0 now s,
      0 < t0 ->
      let r := InMemory.stopTimer now (InMemory.startTimer t0 s) in
      fst r = Some (toDouble (toDouble (now - t0) / 1000)) /\
      InMemory.timerInterval (snd r) = None /\
      ~ In (InMemory.nextHandle s) (InMemory.intervals (snd r))) /\
  (forall now now' s,
      fst (InMemory.stopTimer now' (snd (InMemory.stopTimer now s))) = None).
Proof.
  assert (Hclear : forall h l,
             ~ In h (filter (fun k => negb (Pos.eqb k h)) l)).
  { intros h l Hin. apply filter_In in Hin. destruct Hin as [_ Hin].
    rewrite Pos.eqb_refl in Hin. discriminate. }
  assert (Hfalsy : forall t0, ~ t0 == 0 -> falsyNum (Some t0) = false).
  { intros t0 Ht. cbn. destruct (Qeq_bool t0 0) eqn:E; [| reflexivity].
    apply Qeq_bool_iff in E. contradiction. }
  assert (Hrun : forall now s t0 h,
             InMemory.startTime s = Some t0 -> ~ t0 == 0 ->
             InMemory.timerInterval s = Some h ->
             let r := InMemory.stopTimer now s in
             fst r = Some (toDouble (toDouble (now - t0) / 1000)) /\
             InMemory.startTime (snd r) = None /\
             InMemory.timerInterval (snd r) = None /\
             ~ In h (InMemory.intervals (snd r)) /\
             core (snd r) = core s).
  { intros now s t0 h Hs Ht Hh. unfold InMemory.stopTimer.
    rewrite Hs, (Hfalsy t0 Ht), Hh. cbn. rewrite Hs. cbn.
    repeat split. apply Hclear. }
  split; [| split; [exact Hrun | split]].
  - intros now s Hs. unfold InMemory.stopTimer. rewrite Hs. reflexivity.
  - intros t0 now s Ht.
    assert (Hne : ~ t0 == 0) by lra.
    assert (Hs : InMemory.startTime (InMemory.startTimer t0 s) = Some t0).
    { unfold InMemory.startTimer.
      destruct (InMemory.timerInterval s); reflexivity. }
    assert (Hh : InMemory.timerInterval (InMemory.startTimer t0 s) =
                 Some (InMemory.nextHandle s)).
    { unfold InMemory.startTimer.
      destruct (InMemory.timerInterval s); reflexivity. }
    destruct (Hrun now _ t0 _ Hs Hne Hh) as (H1 & _ & H3 & H4 & _).
    repeat split; assumption.
  - intros now now' s. unfold InMemory.stopTimer at 2.
    destruct (falsyNum (InMemory.startTime s)) eqn:E.
    + cbn. unfold InMemory.stopTimer. rewrite E. reflexivity.
    + destruct (InMemory.timerInterval s); reflexivity.
Qed.

Lemma stopTimer_contract_witness :
  fst (InMemory.stopTimer 13500
         (InMemory.startTimer 1000 InMemory.initial)) =
  Some (toDouble (toDouble (13500 - 1000) / 1000)) /\
  InMemory.stopTimer 13500 InMemory.initial = (None, InMemory.initial).
Proof.
  split.
  - apply (proj1 (proj2 (proj2 stopTimer_contract)) 1000 13500
             InMemory.initial).
    reflexivity.
  - apply (proj1 stopTimer_contract 13500 InMemory.initial). reflexivity.
Defined.




(** * A whole game *)

Example whole_game :
  let s := InMemory.run metersInLat fiveRounds in
  InMemory.currentIndex s = 5%Z /\
  InMemory.correctCount s = 3%Z /\
  InMemory.guessingEnabled s = false /\
  InMemory.startBtnDisabled s = false /\
  InMemory.highScores s = [mkScore 3 5 (Some 14) 14000] /\
  InMemory.highScoreEl s = BoardRows [mkScore 3 5 (Some 14) 14000] /\
  InMemory.intervals s = [] /\
  InMemory.timeouts s = [] /\
  List.length (InMemory.evaluated s) = 5%nat /\
  InMemory.uncaught s = 0%nat.
Proof. cbv zeta. repeat split; vm_compute; reflexivity. Qed.

(** * More on the game: what each function leaves *)

Lemma stopTimer_value now s : fst (InMemory.stopTimer now s) = elapsed now s.
Proof.
  unfold InMemory.stopTimer, elapsed.
  destruct (falsyNum (InMemory.startTime s)); [reflexivity |].
  destruct (InMemory.timerInterval s); reflexivity.
Qed.

(** [endGame], field by field. *)
Lemma endGame_fields now date s :
  let s' := InMemory.endGame now date s in
  InMemory.startBtnDisabled s' = false /\
  InMemory.timeouts s' = InMemory.timeouts s /\
  InMemory.evaluated s' = InMemory.evaluated s /\
  InMemory.scoreEl s' = InMemory.scoreEl s /\
  InMemory.promptEl s' = InMemory.PromptGameOver /\
  InMemory.highScores s' =
    pushSortCut 5 (InMemory.highScores s)
      (mkScore (InMemory.correctCount s) (len LOCATIONS)
         (elapsed now s) date) /\
  InMemory.highScoreEl s' = boardOf (InMemory.highScores s') /\
  InMemory.startTime s' =
    (if falsyNum (InMemory.startTime s) then InMemory.startTime s else None) /\
  InMemory.timerInterval s' =
    (if falsyNum (InMemory.startTime s) then InMemory.timerInterval s
     else None) /\
  InMemory.intervals s' =
    (if falsyNum (InMemory.startTime s) then InMemory.intervals s
     else match InMemory.timerInterval s with
          | Some h =>
              filter (fun k => negb (Pos.eqb k h)) (InMemory.intervals s)
          | None => InMemory.intervals s
          end) /\
  InMemory.timerEl s' =
    (if falsyNum (InMemory.startTime s) then InMemory.timerEl s
     else elapsed now s).
Proof.
  unfold InMemory.endGame, InMemory.stopTimer, elapsed, InMemory.saveScore,
    InMemory.saveScoreTop, InMemory.renderScoreBoard, pushSortCut, boardOf.
  cbn [InMemory.startTime InMemory.set_startBtnDisabled
       InMemory.set_guessingEnabled InMemory.timerInterval].
  destruct (falsyNum (InMemory.startTime s)) eqn:Hf.
  - cbn -[sort slice0 len LOCATIONS].
    destruct (slice0 5 _) eqn:E; cbn -[sort slice0 len LOCATIONS];
      repeat split.
  - destruct (InMemory.timerInterval s) as [h |] eqn:Hti;
      cbn -[sort slice0 len LOCATIONS Qdiv Qminus];
      destruct (slice0 5 _) eqn:E;
      cbn -[sort slice0 len LOCATIONS Qdiv Qminus]; repeat split;
      exact Hti.
Qed.

Lemma startRound_open now date s loc :
  lookup LOCATIONS (InMemory.currentIndex s) = Some loc ->
  (InMemory.currentIndex s < len LOCATIONS)%Z ->
  InMemory.startRound now date s =
  InMemory.set_promptEl
    (InMemory.PromptRound (InMemory.currentIndex s + 1) (len LOCATIONS)
       (name loc) (grid loc))
    (InMemory.set_guessingEnabled true s).
Proof.
  intros Hloc Hlt. unfold InMemory.startRound.
  destruct (Z.geb_spec (InMemory.currentIndex s) (len LOCATIONS)); [lia |].
  cbn [InMemory.set_guessingEnabled InMemory.currentIndex].
  rewrite Hloc. reflexivity.
Qed.

(** [startGame], field by field. *)
Lemma startGame_fields now date s :
  let s' := InMemory.startGame now date s in
  InMemory.currentIndex s' = 0%Z /\
  InMemory.correctCount s' = 0%Z /\
  InMemory.guessingEnabled s' = true /\
  InMemory.uncaught s' = InMemory.uncaught s /\
  InMemory.timeouts s' = InMemory.timeouts s /\
  InMemory.startBtnDisabled s' = true /\
  InMemory.evaluated s' = InMemory.evaluated s /\
  InMemory.scoreEl s' = Some (0%Z, len LOCATIONS) /\
  InMemory.statusEl s' = ""%string /\
  InMemory.highScores s' = InMemory.highScores s /\
  InMemory.highScoreEl s' = InMemory.highScoreEl s /\
  InMemory.startTime s' = Some now /\
  InMemory.timerInterval s' = Some (InMemory.nextHandle s) /\
  InMemory.intervals s' =
    match InMemory.timerInterval s with
    | Some h => filter (fun k => negb (Pos.eqb k h)) (InMemory.intervals s)
    | None => InMemory.intervals s
    end ++ [InMemory.nextHandle s].
Proof.
  unfold InMemory.startGame, InMemory.startTimer.
  cbn -[InMemory.startRound].
  destruct (InMemory.timerInterval s) eqn:Hti; cbn; rewrite ?Hti;
    repeat split.
Qed.

Lemma pushSortCut_Forall (P : ScoreEntry -> Prop) top l e :
  Forall P l -> P e -> Forall P (pushSortCut top l e).
Proof.
  intros Hl He. unfold pushSortCut, slice0.
  assert (H : Forall P (sort InMemory.compareFn (l ++ [e]))).
  { rewrite (sort_perm InMemory.compareFn (l ++ [e])).
    apply Forall_app. split; [exact Hl | constructor; [exact He | constructor]]. }
  rewrite <- (firstn_skipn top (sort _ _)) in H.
  apply Forall_app in H. apply H.
Qed.

Lemma handleGuess_display dist latLng s loc :
  lookup LOCATIONS (InMemory.currentIndex s) = Some loc ->
  let s' := InMemory.handleGuess dist latLng s in
  InMemory.scoreEl s' = Some (InMemory.correctCount s', len LOCATIONS) /\
  InMemory.highScoreEl s' = InMemory.highScoreEl s /\
  InMemory.promptEl s' =
    (if (InMemory.currentIndex s + 1 <? len LOCATIONS)%Z
     then InMemory.PromptGetReady else InMemory.promptEl s).
Proof.
  intro Hloc. unfold InMemory.handleGuess.
  cbn [InMemory.set_guessingEnabled InMemory.currentIndex].
  rewrite Hloc. cbv zeta.
  destruct (Qle_bool (dist latLng (position loc)) CORRECT_DISTANCE_METERS);
    cbn -[len LOCATIONS Z.add];
    destruct (InMemory.currentIndex s + 1 <? len LOCATIONS)%Z;
    cbn -[len LOCATIONS Z.add]; repeat split.
Qed.

Lemma updateTimerDisplay_cases now s :
  InMemory.updateTimerDisplay now s = s \/
  exists v, InMemory.updateTimerDisplay now s = InMemory.set_timerEl v s.
Proof.
  unfold InMemory.updateTimerDisplay.
  destruct (falsyNum (InMemory.startTime s)); [left | right; eexists];
    reflexivity.
Qed.

(** The phase of a state, spelled out. *)
Lemma phase_cases s :
  PhaseOk s ->
  (InMemory.startBtnDisabled s = false /\
   InMemory.guessingEnabled s = false /\ InMemory.timeouts s = []) \/
  (InMemory.startBtnDisabled s = true /\
   InMemory.guessingEnabled s = true /\ InMemory.timeouts s = [] /\
   (InMemory.currentIndex s < len LOCATIONS)%Z) \/
  (InMemory.startBtnDisabled s = true /\
   InMemory.guessingEnabled s = false /\
   InMemory.timeouts s = [pendingFor s] /\
   (1 <= InMemory.currentIndex s)%Z).
Proof.
  unfold PhaseOk, phaseOf.
  destruct (InMemory.startBtnDisabled s), (InMemory.guessingEnabled s),
    (InMemory.timeouts s) as [| cb [| cb' rest]]; intro H;
    try contradiction;
    first [ left; repeat split; reflexivity
          | right; left; repeat split; (reflexivity || exact H)
          | right; right; destruct H; repeat split; assumption ].
Qed.

Lemma Sound_step dist s ev : Sound s -> Sound (InMemory.step dist s ev).
Proof.
  intros (HInv & HPh & HOne & HSc & HBoard & HRank & HLen & HEnt).
  pose proof (step_Inv dist s ev HInv) as HInv'.
  split; [exact HInv' |]. clear HInv'.
  pose proof (phase_cases s HPh) as Hcases.
  destruct HInv as (Hcc & Hle & Hact & Hun).
  destruct ev as [now date | latLng | now date | now]; cbn [InMemory.step].
  - (* click on the start button *)
    destruct (InMemory.startBtnDisabled s) eqn:Hbtn;
      [repeat split; assumption |].
    destruct Hcases as [(_ & _ & Hto) | [(Hb & _) | (Hb & _)]];
      try congruence.
    destruct (startGame_fields now date s)
      as (Hi & Hc & Hg & _ & Ht & Hb & _ & Hs & _ & Hh & Hhe & _ & Hti & Hiv).
    cbv zeta in *.
    unfold PhaseOk, phaseOf, OneInterval, ScoreShown.
    rewrite Hb, Hg, Ht, Hto, Hi, Hc, Hs, Hh, Hhe, Hti, Hiv.
    repeat split; try assumption; try (cbn; lia); auto.
    unfold OneInterval in HOne. rewrite HOne.
    destruct (InMemory.timerInterval s) as [h |]; cbn;
      [rewrite Pos.eqb_refl |]; reflexivity.
  - (* double click on the map *)
    unfold InMemory.onDblClick.
    destruct (InMemory.guessingEnabled s) eqn:Hg;
      [| repeat split; assumption].
    cbn [negb]. specialize (Hact eq_refl).
    destruct Hcases as [(_ & Hg' & _) | [(Hb & _ & Hto & _) | (_ & Hg' & _)]];
      try congruence.
    destruct (lookup_in_range LOCATIONS (InMemory.currentIndex s))
      as [loc Hloc]; [lia |].
    destruct (handleGuess_fields dist latLng s loc Hloc)
      as (Hi & Hc & Hge & _ & _ & _ & Ht & Hb' & Hh & _ & Hti & Hiv).
    destruct (handleGuess_display dist latLng s loc Hloc) as (Hs & Hhe & _).
    cbv zeta in *.
    unfold PhaseOk, phaseOf, OneInterval, ScoreShown, pendingFor.
    rewrite Hb', Hb, Hge, Ht, Hto, Hi, Hs, Hh, Hhe, Hti, Hiv.
    cbn [app].
    repeat split; try assumption; try lia; auto.
  - (* the pending timeout fires *)
    destruct (InMemory.timeouts s) as [| cb rest] eqn:Hto;
      [repeat split; assumption |].
    destruct Hcases as [(_ & _ & Hto') | [(_ & _ & Hto' & _) |
                                          (Hb & Hg & Hto' & Hidx)]];
      try congruence.
    assert (cb = pendingFor s /\ rest = []) as [-> ->] by (split; congruence).
    unfold pendingFor.
    destruct (Z.ltb_spec (InMemory.currentIndex s) (len LOCATIONS))
      as [Hlt | Hge]; cbn [InMemory.runCallback].
    + destruct (lookup_in_range LOCATIONS (InMemory.currentIndex s))
        as [loc Hloc]; [lia |].
      rewrite (startRound_open now date (InMemory.set_timeouts [] s) loc
                 Hloc Hlt).
      unfold PhaseOk, phaseOf, OneInterval, ScoreShown. cbn.
      rewrite Hb. repeat split; try assumption.
    + destruct (endGame_fields now date (InMemory.set_timeouts [] s))
        as (Hb' & Ht & _ & Hs & _ & Hh & Hhe & _ & Hti & Hiv & _).
      pose proof (endGame_core now date (InMemory.set_timeouts [] s)) as Hco.
      unfold core in Hco. injection Hco as Hi Hc Hg' _.
      cbv zeta in *.
      cbn [InMemory.set_timeouts InMemory.timeouts InMemory.startTime
           InMemory.timerInterval InMemory.intervals InMemory.highScores
           InMemory.correctCount InMemory.currentIndex InMemory.scoreEl]
        in Ht, Hs, Hh, Hti, Hiv, Hi, Hc.
      unfold PhaseOk, phaseOf, OneInterval, ScoreShown.
      rewrite Hb', Hg', Ht, Hs, Hc, Hhe, Hh, Hti, Hiv.
      repeat split; try assumption; try reflexivity.
      * unfold OneInterval in HOne. rewrite HOne.
        destruct (falsyNum (InMemory.startTime s)); [reflexivity |].
        destruct (InMemory.timerInterval s) as [h |]; cbn;
          [rewrite Pos.eqb_refl |]; reflexivity.
      * apply pushSortCut_ranked.
      * rewrite pushSortCut_length. lia.
      * apply pushSortCut_Forall; [exact HEnt |].
        unfold GameEntry; cbn [total correct]. split; [reflexivity | lia].
  - (* the timer interval fires *)
    destruct (InMemory.intervals s) eqn:Hiv; [repeat split; assumption |].
    destruct (updateTimerDisplay_cases now s) as [-> | [v ->]];
      [repeat split; assumption |].
    unfold PhaseOk, phaseOf, OneInterval, ScoreShown in *. cbn.
    repeat split; assumption.
Qed.

Lemma initial_Sound : Sound InMemory.initial.
Proof.
  split; [exact initial_Inv |].
  unfold PhaseOk, OneInterval, ScoreShown; cbn.
  repeat split; try constructor; auto.
Qed.

Lemma run_Sound dist evs : Sound (InMemory.run dist evs).
Proof.
  unfold InMemory.run. generalize initial_Sound. generalize InMemory.initial.
  induction evs as [| ev evs IH]; intros s H; [exact H |].
  simpl. apply IH, Sound_step, H.
Qed.

Lemma falsyNum_nonzero t : ~ t == 0 -> falsyNum (Some t) = false.
Proof.
  intro Ht. cbn. destruct (Qeq_bool t 0) eqn:E; [| reflexivity].
  apply Qeq_bool_iff in E. contradiction.
Qed.

Lemma TimerFollowsGame_step dist s ev :
  Sound s -> clickClockNonZero ev ->
  TimerFollowsGame s -> TimerFollowsGame (InMemory.step dist s ev).
Proof.
  intros (HInv & HPh & _) Hev HT.
  pose proof (phase_cases s HPh) as Hcases.
  destruct HInv as (Hcc & Hle & Hact & Hun).
  unfold TimerFollowsGame in *.
  destruct ev as [now date | latLng | now date | now]; cbn [InMemory.step].
  - destruct (InMemory.startBtnDisabled s) eqn:Hbtn.
    + rewrite Hbtn. exact HT.
    + destruct (startGame_fields now date s)
        as (_ & _ & _ & _ & _ & Hb & _ & _ & _ & _ & _ & Hst & Hti & _).
      cbv zeta in *. rewrite Hb, Hst, Hti.
      split; eexists; [split; [reflexivity | exact Hev] | reflexivity].
  - unfold InMemory.onDblClick.
    destruct (InMemory.guessingEnabled s) eqn:Hg; [| exact HT].
    cbn [negb]. specialize (Hact eq_refl).
    destruct (lookup_in_range LOCATIONS (InMemory.currentIndex s))
      as [loc Hloc]; [lia |].
    destruct (handleGuess_fields dist latLng s loc Hloc)
      as (_ & _ & _ & _ & _ & _ & _ & Hb & _ & Hst & Hti & _).
    cbv zeta in *. rewrite Hb, Hst, Hti. exact HT.
  - destruct (InMemory.timeouts s) as [| cb rest] eqn:Hto; [exact HT |].
    destruct Hcases as [(_ & _ & Hto') | [(_ & _ & Hto' & _) |
                                          (Hb & Hg & Hto' & Hidx)]];
      try congruence.
    assert (cb = pendingFor s /\ rest = []) as [-> ->] by (split; congruence).
    rewrite Hb in HT. destruct HT as [[t [Hst Ht]] [h Hti]].
    unfold pendingFor.
    destruct (Z.ltb_spec (InMemory.currentIndex s) (len LOCATIONS))
      as [Hlt | Hge]; cbn [InMemory.runCallback].
    + destruct (lookup_in_range LOCATIONS (InMemory.currentIndex s))
        as [loc Hloc]; [lia |].
      rewrite (startRound_open now date (InMemory.set_timeouts [] s) loc
                 Hloc Hlt).
      cbn. rewrite Hb, Hst, Hti.
      split; eexists; [split; [reflexivity | exact Ht] | reflexivity].
    + destruct (endGame_fields now date (InMemory.set_timeouts [] s))
        as (Hb' & _ & _ & _ & _ & _ & _ & Hst' & Hti' & _).
      cbv zeta in *.
      cbn [InMemory.set_timeouts InMemory.startTime InMemory.timerInterval]
        in Hst', Hti'.
      rewrite Hb', Hst', Hti', Hst, (falsyNum_nonzero t Ht). split; reflexivity.
  - destruct (InMemory.intervals s); [exact HT |].
    destruct (updateTimerDisplay_cases now s) as [-> | [v ->]]; exact HT.
Qed.

Lemma run_TimerFollowsGame dist evs :
  Forall clickClockNonZero evs -> TimerFollowsGame (InMemory.run dist evs).
Proof.
  unfold InMemory.run.
  assert (H0 : Sound InMemory.initial /\ TimerFollowsGame InMemory.initial).
  { split; [exact initial_Sound | split; reflexivity]. }
  revert H0. generalize InMemory.initial.
  induction evs as [| ev evs IH]; intros s [Hs Ht] Hall; [exact Ht |].
  inversion Hall as [| ? ? Hev Hrest]; subst. simpl.
  apply IH; [| exact Hrest].
  split; [apply Sound_step, Hs | apply TimerFollowsGame_step; assumption].
Qed.

(** * Properties of whole runs *)

(** X1.  No event handler ever throws: whenever a round is open,
    [LOCATIONS[currentIndex]] is a catalogue entry, so neither [startRound]
    nor [handleGuess] reads a property of [undefined]. *)
Theorem no_handler_throws dist evs :
  let s := InMemory.run dist evs in
  InMemory.uncaught s = 0%nat /\
  (InMemory.guessingEnabled s = true ->
   exists loc, lookup LOCATIONS (InMemory.currentIndex s) = Some loc).
Proof.
  destruct (run_Inv dist evs) as (Hcc & Hle & Hact & Hun).
  cbv zeta. split; [exact Hun |].
  intro Hg. apply lookup_in_range. specialize (Hact Hg). lia.
Qed.


(** X3.  Timer intervals are replaced, never stacked: at any moment the browser
    holds at most one interval of the game, the one [timerInterval] names. *)
Theorem intervals_never_stack dist evs :
  let s := InMemory.run dist evs in
  InMemory.intervals s =
    match InMemory.timerInterval s with
    | Some h => [h]
    | None => []
    end /\
  (List.length (InMemory.intervals s) <= 1)%nat.
Proof.
  destruct (run_Sound dist evs) as (_ & _ & HOne & _).
  cbv zeta. unfold OneInterval in HOne. split; [exact HOne |].
  rewrite HOne. destruct (InMemory.timerInterval _); cbn; lia.
Qed.

(** X4.  When every click on the start button happens at a non-zero clock
    reading, the timer runs exactly while a game is on: with the button
    disabled a start time and one interval are set, with the button enabled
    both are cleared and no interval is left ticking. *)
Theorem timer_runs_while_game_is_on dist evs :
  Forall clickClockNonZero evs ->
  let s := InMemory.run dist evs in
  if InMemory.startBtnDisabled s then
    (exists t, InMemory.startTime s = Some t /\ ~ t == 0) /\
    (exists h, InMemory.timerInterval s = Some h /\ InMemory.intervals s = [h])
  else
    InMemory.startTime s = None /\ InMemory.timerInterval s = None /\
    InMemory.intervals s = [].
Proof.
  intros Hall s.
  pose proof (run_TimerFollowsGame dist evs Hall) as HT. fold s in HT.
  destruct (run_Sound dist evs) as (_ & _ & HOne & _). fold s in HOne.
  unfold TimerFollowsGame, OneInterval in *.
  destruct (InMemory.startBtnDisabled s).
  - destruct HT as [Hst [h Hti]]. split; [exact Hst |].
    exists h. rewrite HOne, Hti. split; reflexivity.
  - destruct HT as [Hst Hti]. rewrite HOne, Hti. repeat split; assumption.
Qed.

Lemma timer_runs_while_game_is_on_witness :
  InMemory.startTime (InMemory.run metersInLat fiveRounds) = None /\
  InMemory.timerInterval (InMemory.run metersInLat fiveRounds) = None /\
  InMemory.intervals (InMemory.run metersInLat fiveRounds) = [].
Proof.
  assert (H : Forall clickClockNonZero fiveRounds).
  { unfold fiveRounds.
    repeat (apply Forall_cons;
            [first [exact I | intro E; vm_compute in E; discriminate E] |]).
    apply Forall_nil. }
  pose proof (timer_runs_while_game_is_on metersInLat fiveRounds H) as W.
  cbv zeta in W.
  assert (Hb : InMemory.startBtnDisabled
                 (InMemory.run metersInLat fiveRounds) = false)
    by (vm_compute; reflexivity).
  rewrite Hb in W. exact W.
Defined.

(** X5.  The score board on the page always shows the high scores in memory,
    so drawing it again changes nothing. *)
Theorem board_shows_high_scores dist evs :
  let s := InMemory.run dist evs in
  InMemory.highScoreEl s = boardOf (InMemory.highScores s) /\
  InMemory.loadScoresFromStorage s = s.
Proof.
  destruct (run_Sound dist evs) as (_ & _ & _ & _ & HBoard & _).
  cbv zeta. split; [exact HBoard |].
  unfold InMemory.loadScoresFromStorage, InMemory.renderScoreBoard.
  unfold boardOf in HBoard.
  destruct (InMemory.run dist evs) as
    [ci cc ge ti st hs bd pr su sc te he to iv nh ev un].
  cbn in *. subst he. destruct hs; reflexivity.
Qed.

(** X6.  Across any number of games the high scores stay in ranking order and
    within five entries, and every entry is the result of a game on this
    catalogue: its [total] is [LOCATIONS.length] and its [correct] lies
    between 0 and [total]. *)
Theorem high_scores_of_games dist evs :
  let s := InMemory.run dist evs in
  Ranked InMemory.compareFn (InMemory.highScores s) /\
  (List.length (InMemory.highScores s) <= 5)%nat /\
  (forall e,
      In e (InMemory.highScores s) ->
      total e = len LOCATIONS /\ (0 <= correct e <= total e)%Z).
Proof.
  destruct (run_Sound dist evs) as (_ & _ & _ & _ & _ & HRank & HLen & HEnt).
  cbv zeta. split; [exact HRank | split; [exact HLen |]].
  intros e He. rewrite Forall_forall in HEnt.
  destruct (HEnt e He) as [Ht Hc]. rewrite Ht. split; [reflexivity | exact Hc].
Qed.

Lemma high_scores_of_games_witness :
  total (mkScore 3 5 (Some 14) 14000) = len LOCATIONS /\
  (0 <= correct (mkScore 3 5 (Some 14%Q) 14000) <=
   total (mkScore 3 5 (Some 14%Q) 14000))%Z.
Proof.
  apply (proj2 (proj2 (high_scores_of_games metersInLat fiveRounds))).
  pose proof whole_game as W. cbv zeta in W.
  destruct W as (_ & _ & _ & _ & Hhs & _).
  rewrite Hhs. left. reflexivity.
Defined.


(** * Playing rounds *)

Lemma lookup_skipn {A : Type} (arr : list A) (i : Z) (x : A) :
  lookup arr i = Some x ->
  skipn (Z.to_nat i) arr = x :: skipn (Z.to_nat (i + 1)) arr.
Proof.
  unfold lookup. destruct (Z.ltb_spec i 0); [discriminate |].
  replace (Z.to_nat (i + 1)) with (S (Z.to_nat i)) by lia.
  generalize (Z.to_nat i). clear. intro n. revert arr.
  induction n as [| n IH]; intros [| y t] Hn; try discriminate.
  - injection Hn as ->. reflexivity.
  - exact (IH t Hn).
Qed.

Lemma rounds_unfold dist r rs s :
  fold_left (InMemory.step dist) (roundsEvents (r :: rs)) s =
  fold_left (InMemory.step dist) (roundsEvents rs)
    (InMemory.step dist
       (InMemory.step dist s (InMemory.DblClick (fst r)))
       (InMemory.TimeoutFires (fst (snd r)) (snd (snd r)))).
Proof. reflexivity. Qed.

(** Rounds played from an open round. *)
Lemma rounds_from dist rs :
  forall s,
    InMemory.guessingEnabled s = true ->
    InMemory.timeouts s = [] ->
    (0 <= InMemory.currentIndex s)%Z ->
    (InMemory.currentIndex s + Z.of_nat (List.length rs) <= len LOCATIONS)%Z ->
    let s' := fold_left (InMemory.step dist) (roundsEvents rs) s in
    let targets := skipn (Z.to_nat (InMemory.currentIndex s)) LOCATIONS in
    InMemory.currentIndex s' =
      (InMemory.currentIndex s + Z.of_nat (List.length rs))%Z /\
    InMemory.correctCount s' =
      (InMemory.correctCount s + judged dist (map fst rs) targets)%Z /\
    InMemory.evaluated s' =
      InMemory.evaluated s ++ combine (map fst rs) (map position targets) /\
    ((InMemory.currentIndex s + Z.of_nat (List.length rs) < len LOCATIONS)%Z ->
     InMemory.guessingEnabled s' = true /\
     InMemory.timeouts s' = [] /\
     InMemory.startBtnDisabled s' = InMemory.startBtnDisabled s /\
     InMemory.startTime s' = InMemory.startTime s /\
     InMemory.highScores s' = InMemory.highScores s).
Proof.
  induction rs as [| r rs IH]; intros s Hg Hto Hlo Hhi; cbv zeta.
  - cbn. rewrite Z.add_0_r, app_nil_r. repeat split; auto. lia.
  - rewrite rounds_unfold.
    cbn [List.length] in *. rewrite Nat2Z.inj_succ in *.
    destruct (lookup_in_range LOCATIONS (InMemory.currentIndex s))
      as [loc Hloc]; [lia |].
    rewrite (lookup_skipn _ _ _ Hloc).
    cbn [InMemory.step]. unfold InMemory.onDblClick. rewrite Hg. cbn [negb].
    destruct (handleGuess_fields dist (fst r) s loc Hloc)
      as (Hi & Hc & Hge & _ & He & _ & Ht & Hb & Hh & Hst & _).
    cbv zeta in *. set (s1 := InMemory.handleGuess dist (fst r) s) in *.
    rewrite Ht, Hto. cbn [app].
    cbn [map judged combine]. fold (within dist (fst r) loc) in Hc.
    destruct (Z.ltb_spec (InMemory.currentIndex s + 1) (len LOCATIONS))
      as [Hlt | Hge']; cbn [InMemory.runCallback].
    + destruct (lookup_in_range LOCATIONS (InMemory.currentIndex s1))
        as [loc1 Hloc1]; [lia |].
      rewrite (startRound_open _ _ (InMemory.set_timeouts [] s1) loc1 Hloc1)
        by (change (InMemory.currentIndex s1 < len LOCATIONS)%Z; lia).
      set (s2 := InMemory.set_promptEl _ _).
      assert (Hi2 : InMemory.currentIndex s2 = InMemory.currentIndex s1)
        by reflexivity.
      assert (Hc2 : InMemory.correctCount s2 = InMemory.correctCount s1)
        by reflexivity.
      assert (He2 : InMemory.evaluated s2 = InMemory.evaluated s1)
        by reflexivity.
      destruct (IH s2) as (IHi & IHc & IHe & IHf);
        [reflexivity | reflexivity | rewrite Hi2, Hi; lia
         | rewrite Hi2, Hi; lia |].
      rewrite Hi2, Hi in IHi, IHc, IHe, IHf.
      rewrite Hc2, Hc in IHc. rewrite He2, He in IHe.
      rewrite IHi, IHc, IHe, <- app_assoc.
      split; [lia |]. split; [destruct (within dist (fst r) loc); lia |].
      split; [reflexivity |].
      intro Hlt'. destruct IHf as (F1 & F2 & F3 & F4 & F5); [lia |].
      rewrite F1, F2, F3, F4, F5. cbn. auto.
    + destruct rs as [| r' rs']; [| cbn [List.length] in Hhi; lia].
      cbn [roundsEvents flat_map fold_left map judged combine List.length].
      pose proof (endGame_core (fst (snd r)) (snd (snd r))
                    (InMemory.set_timeouts [] s1)) as Hco.
      unfold core in Hco. injection Hco as Hi' Hc' _ _.
      destruct (endGame_fields (fst (snd r)) (snd (snd r))
                  (InMemory.set_timeouts [] s1)) as (_ & _ & He' & _).
      cbv zeta in *. rewrite Hi', Hc', He'.
      change (InMemory.currentIndex (InMemory.set_timeouts [] s1))
        with (InMemory.currentIndex s1).
      change (InMemory.correctCount (InMemory.set_timeouts [] s1))
        with (InMemory.correctCount s1).
      change (InMemory.evaluated (InMemory.set_timeouts [] s1))
        with (InMemory.evaluated s1).
      rewrite Hi, Hc, He.
      destruct (skipn (Z.to_nat (InMemory.currentIndex s + 1)) LOCATIONS);
        destruct (within dist (fst r) loc);
        repeat split; try lia.
Qed.

Lemma click_starts dist s now date :
  InMemory.startBtnDisabled s = false ->
  InMemory.step dist s (InMemory.Click now date) =
  InMemory.startGame now date s.
Proof. intro H. cbn. rewrite H. reflexivity. Qed.

(** X8.  A game started from an idle page and played for [k] rounds (a guess,
    then the pacing timeout) is at round [k]: [currentIndex] is [k],
    [correctCount] is the number of guesses within the threshold of their
    own target, guess [i] having been measured against [LOCATIONS[i]] and
    nothing else; while rounds remain, guessing is open again. *)
Theorem rounds_progress dist s now date rs :
  InMemory.startBtnDisabled s = false ->
  InMemory.timeouts s = [] ->
  (List.length rs <= List.length LOCATIONS)%nat ->
  let s' :=
    fold_left (InMemory.step dist)
      (InMemory.Click now date :: roundsEvents rs) s in
  InMemory.currentIndex s' = Z.of_nat (List.length rs) /\
  InMemory.correctCount s' = judged dist (map fst rs) LOCATIONS /\
  InMemory.evaluated s' =
    InMemory.evaluated s ++ combine (map fst rs) (map position LOCATIONS) /\
  ((List.length rs < List.length LOCATIONS)%nat ->
   InMemory.guessingEnabled s' = true).
Proof.
  intros Hb Hto Hlen. cbv zeta. cbn [fold_left].
  rewrite (click_starts dist s now date Hb).
  destruct (startGame_fields now date s)
    as (Hi & Hc & Hg & _ & Ht & _ & He & _).
  cbv zeta in *.
  destruct (rounds_from dist rs (InMemory.startGame now date s))
    as (Ri & Rc & Re & Rf).
  - exact Hg.
  - rewrite Ht. exact Hto.
  - rewrite Hi. lia.
  - rewrite Hi. unfold len. lia.
  - rewrite Hi, ?Hc, ?He in *. change (Z.to_nat 0) with 0%nat in *.
    cbn [skipn] in *. rewrite Ri, Rc, Re.
    repeat split; try reflexivity.
    intro Hlt. apply Rf. unfold len. lia.
Qed.

Lemma rounds_progress_witness :
  InMemory.currentIndex
    (fold_left (InMemory.step metersInLat)
       (InMemory.Click 1000 0 :: roundsEvents threeRounds) InMemory.initial)
  = 3%Z /\
  InMemory.correctCount
    (fold_left (InMemory.step metersInLat)
       (InMemory.Click 1000 0 :: roundsEvents threeRounds) InMemory.initial)
  = 2%Z.
Proof.
  destruct (rounds_progress metersInLat InMemory.initial 1000 0 threeRounds)
    as (Hi & Hc & _); [reflexivity | reflexivity | cbn; lia |].
  cbv zeta in Hi, Hc. split; [exact Hi | exact Hc].
Defined.

(** X9.  A game played to its last round is recorded once, when the last pacing
    timeout fires: the page is idle again, and the high scores are the old
    ones with one entry pushed, sorted and cut to five.  The entry holds the
    number of guesses within the threshold, [LOCATIONS.length] as total,
    the [Date.now()] of that moment, and as time the seconds between the
    click on the start button and the last timeout as the program computes
    them, the double [nowE - now0] divided by 1000 as doubles; the time is
    [null] when the clock read 0 at the click. *)
Theorem finished_game_is_recorded dist s now0 date0 rs g nowE dateE :
  InMemory.startBtnDisabled s = false ->
  InMemory.timeouts s = [] ->
  S (List.length rs) = List.length LOCATIONS ->
  let all := rs ++ [(g, (nowE, dateE))] in
  let s' :=
    fold_left (InMemory.step dist)
      (InMemory.Click now0 date0 :: roundsEvents all) s in
  InMemory.startBtnDisabled s' = false /\
  InMemory.guessingEnabled s' = false /\
  InMemory.timeouts s' = [] /\
  InMemory.highScores s' =
    pushSortCut 5 (InMemory.highScores s)
      (mkScore (judged dist (map fst all) LOCATIONS) (len LOCATIONS)
         (if Qeq_bool now0 0 then None
          else Some (toDouble (toDouble (nowE - now0) / 1000)))
         dateE) /\
  InMemory.highScoreEl s' = boardOf (InMemory.highScores s').
Proof.
  intros Hb Hto Hlen all s'.
  (* the counters, from the whole run *)
  destruct (rounds_progress dist s now0 date0 all Hb Hto) as (_ & Tc & _).
  { unfold all. rewrite length_app. cbn [List.length]. lia. }
  fold s' in Tc.
  (* the state before the last round *)
  subst s'. unfold all in *. cbn [fold_left] in *.
  rewrite (click_starts dist s now0 date0 Hb) in *.
  unfold roundsEvents in *. rewrite flat_map_app, fold_left_app in *.
  fold (roundsEvents rs) in *.
  destruct (startGame_fields now0 date0 s)
    as (Hi & _ & Hg & _ & Ht & Hbt & _ & _ & _ & Hh & _ & Hst & _).
  cbv zeta in Hi, Hg, Ht, Hbt, Hh, Hst.
  destruct (rounds_from dist rs (InMemory.startGame now0 date0 s))
    as (Ri & _ & _ & Rf);
    [exact Hg | rewrite Ht; exact Hto | rewrite Hi; lia
     | rewrite Hi; unfold len; lia |].
  cbv zeta in Ri, Rf. rewrite Hi in Ri, Rf.
  destruct Rf as (Ag & At & Ab & Ast & Ah); [unfold len; lia |].
  set (sA := fold_left (InMemory.step dist) (roundsEvents rs)
               (InMemory.startGame now0 date0 s)) in *.
  (* the last round *)
  cbn [flat_map roundEvents app fold_left fst snd InMemory.step] in *.
  unfold InMemory.onDblClick in *. rewrite Ag in *. cbn [negb] in *.
  destruct (lookup_in_range LOCATIONS (InMemory.currentIndex sA))
    as [loc Hloc]; [unfold len; lia |].
  destruct (handleGuess_fields dist g sA loc Hloc)
    as (Bi & _ & _ & _ & _ & _ & Bt & Bb & Bh & Bst & _).
  cbv zeta in Bi, Bt, Bb, Bh, Bst.
  set (sB := InMemory.handleGuess dist g sA) in *.
  rewrite Bt, At in *. cbn [app] in *.
  assert (Hlast : (InMemory.currentIndex sA + 1 <? len LOCATIONS)%Z = false).
  { apply Z.ltb_ge. unfold len. lia. }
  rewrite Hlast in *. cbn [InMemory.runCallback] in *.
  destruct (endGame_fields nowE dateE (InMemory.set_timeouts [] sB))
    as (Eb & Et & _ & _ & _ & Eh & Ehe & _).
  pose proof (endGame_core nowE dateE (InMemory.set_timeouts [] sB)) as Ec.
  unfold core in Ec. injection Ec as _ Ec Eg _.
  cbv zeta in Eb, Et, Eh, Ehe.
  set (sE := InMemory.endGame nowE dateE (InMemory.set_timeouts [] sB)) in *.
  change (InMemory.correctCount (InMemory.set_timeouts [] sB))
    with (InMemory.correctCount sB) in Ec, Eh.
  change (InMemory.highScores (InMemory.set_timeouts [] sB))
    with (InMemory.highScores sB) in Eh.
  assert (Hel : elapsed nowE (InMemory.set_timeouts [] sB) =
                if Qeq_bool now0 0 then None
                else Some (toDouble (toDouble (nowE - now0) / 1000))).
  { unfold elapsed.
    change (InMemory.startTime (InMemory.set_timeouts [] sB))
      with (InMemory.startTime sB).
    rewrite Bst, Ast, Hst. reflexivity. }
  rewrite Hel, Bh, Ah, Hh, <- Ec, Tc in Eh.
  repeat split; assumption.
Qed.

Lemma finished_game_is_recorded_witness :
  InMemory.highScores
    (fold_left (InMemory.step metersInLat)
       (InMemory.Click 1000 0 ::
        roundsEvents
          ((threeRounds ++ [(mkLatLng 300 0, (12000, 11000%Z))]) ++
           [(mkLatLng 0 0, (15000, 14000%Z))]))
       InMemory.initial) =
  pushSortCut 5 (InMemory.highScores InMemory.initial)
    (mkScore
       (judged metersInLat
          (map fst
             ((threeRounds ++ [(mkLatLng 300 0, (12000, 11000%Z))]) ++
              [(mkLatLng 0 0, (15000, 14000%Z))]))
          LOCATIONS)
       (len LOCATIONS)
       (if Qeq_bool 1000 0 then None
        else Some (toDouble (toDouble (15000 - 1000) / 1000)))
       14000).
Proof.
  apply (finished_game_is_recorded metersInLat InMemory.initial 1000 0
           (threeRounds ++ [(mkLatLng 300 0, (12000, 11000%Z))])
           (mkLatLng 0 0) 15000 14000);
    reflexivity.
Defined.

(** * Where a new score goes *)

Lemma filter_all {A : Type} (p : A -> bool) (l : list A) :
  Forall (fun z => p z = true) l -> filter p l = l.
Proof.
  induction 1 as [| z t Hz _ IH]; simpl; [reflexivity |].
  rewrite Hz, IH. reflexivity.
Qed.

Lemma place_insertRanked e l :
  Ranked InMemory.compareFn l ->
  place InMemory.compareFn e l = insertRanked e l.
Proof.
  unfold insertRanked, worseThan.
  induction l as [| y t IH]; intro Hr; [reflexivity |].
  simpl place. destruct (comesAfter InMemory.compareFn y e) eqn:E.
  - pose proof (ranked_all_after _ compareFn_consistent e y t Hr
                  (proj1 (comesAfter_true _ y e) E)) as Hall.
    assert (Hall' : Forall (fun z => comesAfter InMemory.compareFn z e = true)
                      (y :: t)).
    { eapply Forall_impl; [| exact Hall].
      intros z Hz. apply comesAfter_true. exact Hz. }
    rewrite (filter_all _ _ Hall').
    rewrite filter_none; [reflexivity |].
    eapply Forall_impl; [| exact Hall'].
    intros z Hz. cbn. rewrite Hz. reflexivity.
  - apply StronglySorted_inv in Hr. destruct Hr as [Ht _].
    cbn [filter]. rewrite E. cbn [negb app]. rewrite (IH Ht). reflexivity.
Qed.

(** X10.  On a ranked score board [saveScore] puts the new entry directly below
    every entry that ranks at least as well (so it loses every tie to the
    older entry) and above every entry that ranks worse, then keeps the
    first [top].  Hence on a full board an entry that beats none of the
    kept ones is dropped and the board is unchanged, while an entry that
    beats one of them, or finds room, is kept. *)
Theorem new_score_goes_below_its_equals top c t ts now s :
  Ranked InMemory.compareFn (InMemory.highScores s) ->
  let e := mkScore c t (numberOrNull ts) now in
  let s' := InMemory.saveScoreTop top c t ts now s in
  InMemory.highScores s' = slice0 top (insertRanked e (InMemory.highScores s)) /\
  (List.length (InMemory.highScores s) = top ->
   (forall y, In y (InMemory.highScores s) -> worseThan e y = false) ->
   InMemory.highScores s' = InMemory.highScores s) /\
  ((List.length (InMemory.highScores s) <= top)%nat ->
   (List.length (InMemory.highScores s) < top)%nat \/
   (exists y, In y (InMemory.highScores s) /\ worseThan e y = true) ->
   In e (InMemory.highScores s')).
Proof.
  intros Hr e s'.
  assert (Hs : InMemory.highScores s' =
               slice0 top (insertRanked e (InMemory.highScores s))).
  { subst s'. rewrite inMemory_saveScoreTop_highScores.
    unfold pushSortCut. rewrite sort_snoc.
    rewrite (sort_ranked_id _ _ Hr).
    exact (f_equal (slice0 top) (place_insertRanked e _ Hr)). }
  split; [exact Hs | split].
  - intros Hfull Hnone. rewrite Hs. unfold insertRanked, slice0.
    rewrite (filter_none (worseThan e));
      [| apply Forall_forall; exact Hnone].
    rewrite filter_all;
      [| apply Forall_forall; intros y Hy; rewrite (Hnone y Hy); reflexivity].
    rewrite <- Hfull, firstn_app, firstn_all, Nat.sub_diag. cbn.
    apply app_nil_r.
  - intros Hle Hroom. rewrite Hs. unfold insertRanked, slice0.
    set (hs := InMemory.highScores s) in *.
    pose proof (filter_length (worseThan e) hs) as Hlen.
    assert (Hpos : (List.length
                      (filter (fun y => negb (worseThan e y)) hs) < top)%nat).
    { destruct Hroom as [Hlt | [y [Hy Hw]]]; [lia |].
      assert (Hin : In y (filter (worseThan e) hs))
        by (apply filter_In; split; assumption).
      destruct (filter (worseThan e) hs); [contradiction | cbn in Hlen; lia]. }
    rewrite firstn_app.
    apply in_or_app. right.
    destruct (top - List.length (filter (fun y => negb (worseThan e y)) hs))%nat
      eqn:Ek; [lia |].
    left. reflexivity.
Qed.

Lemma new_score_goes_below_its_equals_witness :
  InMemory.highScores
    (InMemory.saveScoreTop 2 5 5 (Some 20) 9
       (InMemory.set_highScores
          [mkScore 5 5 (Some 15) 3; mkScore 5 5 (Some 20) 2]
          InMemory.initial)) =
  [mkScore 5 5 (Some 15) 3; mkScore 5 5 (Some 20) 2].
Proof.
  apply (proj1 (proj2 (new_score_goes_below_its_equals 2 5 5 (Some 20) 9
                         (InMemory.set_highScores
                            [mkScore 5 5 (Some 15) 3; mkScore 5 5 (Some 20) 2]
                            InMemory.initial)
                         ltac:(repeat constructor; vm_compute; discriminate)))).
  - reflexivity.
  - intros y [<- | [<- | []]]; reflexivity.
Defined.

(** * The time of a game *)

(** X11.  [endGame] hands the timer's result to [saveScore]: with a timer started
    at a non-zero reading [t0], the time written to the timer text and the
    time of the pushed entry are the same double, [now - t0] divided by
    1000 in double arithmetic; with no timer started the entry has no time
    and the timer text is left alone.  Either way a tick that arrives after
    [endGame] changes nothing. *)
Theorem end_of_game_time now date s :
  let s' := InMemory.endGame now date s in
  (forall t0,
      InMemory.startTime s = Some t0 -> ~ t0 == 0 ->
      InMemory.timerEl s' = Some (toDouble (toDouble (now - t0) / 1000)) /\
      InMemory.highScores s' =
        pushSortCut 5 (InMemory.highScores s)
          (mkScore (InMemory.correctCount s) (len LOCATIONS)
             (InMemory.timerEl s') date)) /\
  (InMemory.startTime s = None ->
   InMemory.timerEl s' = InMemory.timerEl s /\
   InMemory.highScores s' =
     pushSortCut 5 (InMemory.highScores s)
       (mkScore (InMemory.correctCount s) (len LOCATIONS) None date)) /\
  (forall now', InMemory.updateTimerDisplay now' s' = s').
Proof.
  destruct (endGame_fields now date s)
    as (_ & _ & _ & _ & _ & Hh & _ & Hst & _ & _ & Hte).
  cbv zeta in *. split; [| split].
  - intros t0 Ht0 Hne. rewrite Hte, Hh. unfold elapsed.
    rewrite Ht0, (falsyNum_nonzero t0 Hne). split; reflexivity.
  - intro Hnone. rewrite Hte, Hh. unfold elapsed. rewrite Hnone.
    split; reflexivity.
  - intro now'. unfold InMemory.updateTimerDisplay. rewrite Hst.
    destruct (falsyNum (InMemory.startTime s)) eqn:Hf; [rewrite Hf |];
      reflexivity.
Qed.

Lemma end_of_game_time_witness :
  InMemory.timerEl
    (InMemory.endGame 13500 7
       (InMemory.startTimer 1000 InMemory.initial)) =
  Some (toDouble (toDouble (13500 - 1000) / 1000)) /\
  InMemory.timerEl (InMemory.endGame 13500 7 InMemory.initial) =
  InMemory.timerEl InMemory.initial.
Proof.
  split.
  - apply (proj1 (end_of_game_time 13500 7
                    (InMemory.startTimer 1000 InMemory.initial)) 1000);
      [reflexivity | intro E; vm_compute in E; discriminate E].
  - apply (proj1 (proj2 (end_of_game_time 13500 7 InMemory.initial))).
    reflexivity.
Defined.

(** * More on the stored score board *)

(** X12.  A [saveScore] that reads, parses and writes without failure stores
    the pushed, sorted and cut array, one entry longer than before up to
    ten, and shows it; reading the store back with [loadScoresFromStorage]
    then shows the very same board. *)
Theorem save_then_load io c t ts now s scores :
  Persisted.getItemThrows io = false ->
  Persisted.setItemThrows io = false ->
  readScores s = Some scores ->
  let s' := Persisted.saveScore io c t ts now s in
  Persisted.leaderboard s' =
    pushSortCut 10 scores (mkScore c t (numberOrNull ts) now) /\
  List.length (Persisted.leaderboard s') =
    Nat.min 10 (S (List.length scores)) /\
  Persisted.highScoreEl s' = BoardRows (Persisted.leaderboard s') /\
  Persisted.loadScoresFromStorage Persisted.healthy s' = s'.
Proof.
  intros Hg Hw Hread. unfold Persisted.saveScore.
  destruct (persisted_saveScoreTop_cases 10 io c t ts now s)
    as [[_ [H | [H | H]]] | [scores' (_ & _ & Hread' & Hs')]];
    try congruence.
  cbv zeta in *. rewrite Hs'.
  assert (scores' = scores) by congruence. subst scores'.
  pose proof (pushSortCut_length 10 scores (mkScore c t (numberOrNull ts) now))
    as Hlen.
  destruct (pushSortCut 10 scores (mkScore c t (numberOrNull ts) now))
    as [| x l] eqn:E; [cbn in Hlen; lia |].
  repeat split; try reflexivity; [exact Hlen |].
  unfold Persisted.loadScoresFromStorage, Persisted.JSON_stringify, boardOf.
  cbn [Persisted.getItem Persisted.getItemThrows Persisted.healthy
       Persisted.bind Persisted.item Persisted.JSON_parse Persisted.arrayOf
       map].
  unfold Persisted.renderArray.
  change (Some x :: map Some l) with (map Some (x :: l)).
  rewrite entries_map_Some. reflexivity.
Qed.

Lemma save_then_load_witness :
  Persisted.loadScoresFromStorage Persisted.healthy
    (Persisted.saveScore Persisted.healthy 3 5 (Some 10) 1 emptyStore) =
  Persisted.saveScore Persisted.healthy 3 5 (Some 10) 1 emptyStore.
Proof.
  apply (save_then_load Persisted.healthy 3 5 (Some 10) 1 emptyStore []);
    reflexivity.
Defined.

(** X13.  Whether [saveScore] can read the stored value never changes: no
    [saveScore] makes a readable store unreadable, and once the stored text
    is not valid JSON, or the stored array holds a [null], every later
    [saveScore] is dropped whole, whatever the backend does, so the store
    and the board stay as they are for good. *)
Theorem unparseable_store_stays top calls s :
  let s' := fold_left (recordPersisted top) calls s in
  (readScores s' = None <-> readScores s = None) /\
  (readScores s = None -> s' = s).
Proof.
  cbv zeta. revert s.
  induction calls as [| [io r] calls IH]; intro s; [split; tauto |].
  cbn [fold_left]. unfold recordPersisted at 2 4.
  destruct (persisted_saveScoreTop_cases top io (rCorrect r) (rTotal r)
              (rTime r) (rNow r) s)
    as [[Heq _] | [scores (_ & _ & Hread & Hs')]]; cbv zeta in *.
  - rewrite Heq. apply IH.
  - rewrite Hs'. destruct (IH (Persisted.mkState
                                 (Some (Persisted.JSON_stringify
                                          (pushSortCut top scores
                                             (mkScore (rCorrect r) (rTotal r)
                                                (numberOrNull (rTime r))
                                                (rNow r)))))
                                 (boardOf
                                    (pushSortCut top scores
                                       (mkScore (rCorrect r) (rTotal r)
                                          (numberOrNull (rTime r))
                                          (rNow r))))))
      as [IH1 _].
    split.
    + rewrite IH1. cbn. rewrite Hread. split; discriminate.
    + intro Hn. congruence.
Qed.

Lemma unparseable_store_stays_witness :
  fold_left (recordPersisted 10)
    (map (pair Persisted.healthy) eightRecordings)
    (Persisted.mkState (Some Persisted.NotJson) (BoardText "")) =
  Persisted.mkState (Some Persisted.NotJson) (BoardText "") /\
  fold_left (recordPersisted 10)
    (map (pair Persisted.healthy) eightRecordings)
    (Persisted.mkState
       (Some (Persisted.JsonOf
                (Persisted.NullInArray [mkScore 5 5 (Some 15) 3] [])))
       (BoardText "High Scores: Unavailable")) =
  Persisted.mkState
    (Some (Persisted.JsonOf
             (Persisted.NullInArray [mkScore 5 5 (Some 15) 3] [])))
    (BoardText "High Scores: Unavailable").
Proof.
  split.
  - apply (proj2 (unparseable_store_stays 10
                    (map (pair Persisted.healthy) eightRecordings)
                    (Persisted.mkState (Some Persisted.NotJson)
                       (BoardText "")))).
    reflexivity.
  - apply (proj2 (unparseable_store_stays 10
                    (map (pair Persisted.healthy) eightRecordings)
                    (Persisted.mkState
                       (Some (Persisted.JsonOf
                                (Persisted.NullInArray
                                   [mkScore 5 5 (Some 15) 3] [])))
                       (BoardText "High Scores: Unavailable")))).
    reflexivity.
Defined.

(** * The second variant's game *)

Lemma forget_handleGuess dist latLng g :
  InMemory.handleGuess dist latLng (PersistedGame.forget g) =
  PersistedGame.forget (InMemory.handleGuess dist latLng g).
Proof.
  unfold InMemory.handleGuess, PersistedGame.forget.
  cbn [InMemory.set_guessingEnabled InMemory.set_highScoreEl
       InMemory.set_highScores InMemory.currentIndex].
  destruct (lookup LOCATIONS (InMemory.currentIndex g)); [| reflexivity].
  cbv zeta.
  destruct (Qle_bool _ _);
    cbn -[len LOCATIONS Z.add];
    destruct (InMemory.currentIndex g + 1 <? len LOCATIONS)%Z; reflexivity.
Qed.

Lemma forget_endGame now date g :
  PersistedGame.endGame now (PersistedGame.forget g) =
  PersistedGame.forget (InMemory.endGame now date g).
Proof.
  unfold PersistedGame.endGame, InMemory.endGame, InMemory.stopTimer,
    InMemory.saveScore, InMemory.saveScoreTop, InMemory.renderScoreBoard,
    PersistedGame.forget.
  cbn [InMemory.startTime InMemory.set_startBtnDisabled
       InMemory.set_guessingEnabled InMemory.set_highScoreEl
       InMemory.set_highScores InMemory.timerInterval].
  destruct (falsyNum (InMemory.startTime g)).
  - cbn -[sort slice0 len LOCATIONS].
    destruct (slice0 5 _); reflexivity.
  - destruct (InMemory.timerInterval g);
      cbn -[sort slice0 len LOCATIONS Qdiv Qminus];
      destruct (slice0 5 _); reflexivity.
Qed.

Lemma forget_startRound now date g :
  PersistedGame.startRound now (PersistedGame.forget g) =
  PersistedGame.forget (InMemory.startRound now date g).
Proof.
  unfold PersistedGame.startRound, InMemory.startRound.
  change (InMemory.currentIndex (PersistedGame.forget g))
    with (InMemory.currentIndex g).
  destruct (InMemory.currentIndex g >=? len LOCATIONS)%Z;
    [apply forget_endGame |].
  cbn [InMemory.set_guessingEnabled InMemory.currentIndex
       PersistedGame.forget InMemory.set_highScoreEl InMemory.set_highScores].
  destruct (lookup LOCATIONS (InMemory.currentIndex g)); reflexivity.
Qed.

Lemma forget_startGame now date g :
  PersistedGame.startGame now (PersistedGame.forget g) =
  PersistedGame.forget (InMemory.startGame now date g).
Proof.
  unfold PersistedGame.startGame, InMemory.startGame.
  rewrite <- (forget_startRound now date). f_equal.
  unfold InMemory.startTimer, PersistedGame.forget.
  cbn [InMemory.timerInterval InMemory.set_startBtnDisabled
       InMemory.set_promptEl InMemory.set_statusEl InMemory.updateScore
       InMemory.set_scoreEl InMemory.set_correctCount
       InMemory.set_currentIndex InMemory.set_highScoreEl
       InMemory.set_highScores].
  destruct (InMemory.timerInterval g); reflexivity.
Qed.

Lemma forget_step dist g ev :
  PersistedGame.stepGame dist (PersistedGame.forget g) ev =
  PersistedGame.forget (InMemory.step dist g ev).
Proof.
  destruct ev as [now date | latLng | now date | now];
    cbn [PersistedGame.stepGame InMemory.step].
  - change (InMemory.startBtnDisabled (PersistedGame.forget g))
      with (InMemory.startBtnDisabled g).
    destruct (InMemory.startBtnDisabled g);
      [reflexivity | apply forget_startGame].
  - unfold InMemory.onDblClick.
    change (InMemory.guessingEnabled (PersistedGame.forget g))
      with (InMemory.guessingEnabled g).
    destruct (InMemory.guessingEnabled g);
      [apply forget_handleGuess | reflexivity].
  - change (InMemory.timeouts (PersistedGame.forget g))
      with (InMemory.timeouts g).
    destruct (InMemory.timeouts g) as [| cb rest]; [reflexivity |].
    change (InMemory.set_timeouts rest (PersistedGame.forget g))
      with (PersistedGame.forget (InMemory.set_timeouts rest g)).
    destruct cb; cbn [PersistedGame.runCallback InMemory.runCallback];
      [apply forget_startRound | apply forget_endGame].
  - change (InMemory.intervals (PersistedGame.forget g))
      with (InMemory.intervals g).
    destruct (InMemory.intervals g); [reflexivity |].
    unfold InMemory.updateTimerDisplay.
    change (InMemory.startTime (PersistedGame.forget g))
      with (InMemory.startTime g).
    destruct (falsyNum (InMemory.startTime g)); reflexivity.
Qed.

(** X15.  The two variants play the same game: after the same events the second
    variant's globals, page elements and timers are those of the first,
    its score board apart. *)
Theorem variants_play_alike dist io s0 evs :
  PersistedGame.game (PersistedGame.run dist io s0 evs) =
  PersistedGame.forget (InMemory.run dist evs).
Proof.
  unfold PersistedGame.run, InMemory.run, PersistedGame.initial.
  generalize (Persisted.loadScoresFromStorage io s0).
  generalize InMemory.initial.
  induction evs as [| ev evs IH]; intros g st; [reflexivity |].
  cbn [fold_left]. unfold PersistedGame.step at 2.
  cbn [PersistedGame.game PersistedGame.store].
  rewrite forget_step. apply IH.
Qed.
